(** * MRIT helpdesk: the query-resolution core of [app.py]

    A shallow embedding of the rule-based question answering code
    ([normalize_text], [similarity], the entity finders, the
    timetable renderers, [answer_query], [split_questions] and the
    [/ask] handler), followed by the properties the specification
    states about it.

    Conventions of the embedding.
    - A Python [str] is a list of characters ([list ascii]); the text
      handled by the helpdesk is ASCII, and [lower]/[upper]/[strip]
      act on the ASCII letters and ASCII white space.
    - Python integers that index a string are [nat].
    - A [float] produced by [SequenceMatcher.ratio] is the quotient
      [2*M/T] of two small integers; it is kept as the exact rational
      [Q].  The comparisons of the program ([score > best_score],
      [best_score > 0.6], ...) compare such quotients with each other
      or with a two-digit decimal, and on those the exact and the
      rounded comparison agree for every string shorter than 2^25
      characters.
    - A JSON object of the knowledge base is a record whose fields are
      [option]s: [None] is an absent key.  A key that is present holds
      a value of the type the code expects (a string, a list, an
      object); a null or a number in the place of a string, on which
      the code raises [AttributeError], is outside the embedding.
    - A Python exception is the [Raise] alternative of [result]: the
      [KeyError] of a subscript [d['name']] and the [IndexError] of
      [l[0]]. *)

From Stdlib Require Import QArith Ascii String DecimalString.
From stdpp Require Import base option list sorting gmap strings.

Local Open Scope string_scope.
Local Open Scope list_scope.
Local Open Scope nat_scope.

(* ================================================================== *)
(** ** Python strings *)

Abbreviation str := (list ascii).

(** String literals are written as [string]s and read as [str]. *)
Definition lit (s : string) : list ascii := list_ascii_of_string s.
Coercion lit : string >-> list.

Definition words (l : list string) : list str := map lit l.

(** The double quote and the newline, for the HTML templates. *)
Definition dquote : str := ["034"%char].
Definition newline : str := ["010"%char].

Definition ascii_code (c : ascii) : nat := nat_of_ascii c.

(** [str.isspace] on ASCII: tab, LF, VT, FF, CR, FS, GS, RS, US, space. *)
Definition is_space (c : ascii) : bool :=
  let n := ascii_code c in
  ((9 <=? n) && (n <=? 13)) || ((28 <=? n) && (n <=? 32)).

Definition lower_char (c : ascii) : ascii :=
  let n := ascii_code c in
  if (65 <=? n) && (n <=? 90) then ascii_of_nat (n + 32) else c.

Definition upper_char (c : ascii) : ascii :=
  let n := ascii_code c in
  if (97 <=? n) && (n <=? 122) then ascii_of_nat (n - 32) else c.

(** [s.lower()], [s.upper()] *)
Definition lower (s : str) : str := map lower_char s.
Definition upper (s : str) : str := map upper_char s.

(** [s.capitalize()] *)
Definition capitalize (s : str) : str :=
  match s with
  | [] => []
  | c :: s' => upper_char c :: lower s'
  end.

Fixpoint lstrip (s : str) : str :=
  match s with
  | [] => []
  | c :: s' => if is_space c then lstrip s' else s
  end.

Definition rstrip (s : str) : str := rev (lstrip (rev s)).

(** [s.strip()] *)
Definition strip (s : str) : str := rstrip (lstrip s).

(** [s.startswith(p)] *)
Fixpoint startswith (p s : str) : bool :=
  match p, s with
  | [], _ => true
  | _ :: _, [] => false
  | x :: p', y :: s' => Ascii.eqb x y && startswith p' s'
  end.

(** [needle in hay] *)
Fixpoint str_in (needle hay : str) : bool :=
  startswith needle hay ||
  match hay with
  | [] => false
  | _ :: hay' => str_in needle hay'
  end.

(** [s.replace(old, new)] for a non-empty [old]: the occurrences are
    found left to right and do not overlap.  [skip] counts the
    characters of an occurrence that are still to be passed over. *)
Fixpoint replace_from (old new : str) (skip : nat) (s : str) : str :=
  match s with
  | [] => []
  | c :: s' =>
      match skip with
      | S n => replace_from old new n s'
      | O =>
          if startswith old s
          then new ++ replace_from old new (length old - 1) s'
          else c :: replace_from old new 0 s'
      end
  end.

(** With an empty [old] Python puts [new] before every character and
    at the end. *)
Definition replace (old new s : str) : str :=
  match old with
  | [] => new ++ concat (map (fun c => c :: new) s)
  | _ :: _ => replace_from old new 0 s
  end.

(** [sep.join(parts)] *)
Fixpoint join (sep : str) (parts : list str) : str :=
  match parts with
  | [] => []
  | [p] => p
  | p :: rest => p ++ sep ++ join sep rest
  end.

(** [s.split()]: the maximal runs of non-space characters. *)
Fixpoint split_from (cur : str) (s : str) : list str :=
  match s with
  | [] => match cur with [] => [] | _ :: _ => [cur] end
  | c :: s' =>
      if is_space c
      then match cur with
           | [] => split_from [] s'
           | _ :: _ => cur :: split_from [] s'
           end
      else split_from (cur ++ [c]) s'
  end.

Definition split (s : str) : list str := split_from [] s.

(** [str(n)] for a non-negative integer *)
Definition str_of_nat (n : nat) : str :=
  lit (NilEmpty.string_of_uint (Nat.to_uint n)).

(** Truth value of a string: non-empty. *)
Definition truthy (s : str) : bool :=
  match s with [] => false | _ :: _ => true end.

(* ================================================================== *)
(** ** Exceptions *)

Inductive exn := KeyError | IndexError.

Inductive result (A : Type) :=
| Ok (a : A)
| Raise (e : exn).
Arguments Ok {A} a.
Arguments Raise {A} e.

Definition bind {A B} (r : result A) (f : A -> result B) : result B :=
  match r with
  | Ok a => f a
  | Raise e => Raise e
  end.

Global Instance result_ret : MRet result := @Ok.
Global Instance result_bind : MBind result := fun A B f r => bind r f.

(** [d[key]] on a field that may be absent *)
Definition subscript {A} (field : option A) : result A :=
  match field with
  | Some v => Ok v
  | None => Raise KeyError
  end.

(** [d.get(key, dflt)] *)
Definition get {A} (field : option A) (dflt : A) : A :=
  match field with
  | Some v => v
  | None => dflt
  end.

(* ================================================================== *)
(** ** [difflib.SequenceMatcher(None, a, b)]

    [similarity] is [SequenceMatcher(None, a, b).ratio()]; the methods
    it runs are embedded from CPython's [Lib/difflib.py].  [isjunk] is
    [None], so the junk set is empty; [autojunk] keeps its default
    [True]. *)

Definition block := (nat * nat * nat)%type.

(** [__chain_b], first loop: [b2j[elt]] lists the positions of [elt]
    in [b], in increasing order. *)
Fixpoint chain_from (i : nat) (b : str) (b2j : gmap ascii (list nat))
  : gmap ascii (list nat) :=
  match b with
  | [] => b2j
  | elt :: b' =>
      chain_from (S i) b' (<[elt := get (b2j !! elt) [] ++ [i]]> b2j)
  end.

(** [__chain_b], purge of the popular elements. *)
Definition chain_b (b : str) : gmap ascii (list nat) :=
  let b2j := chain_from 0 b ∅ in
  let n := length b in
  if 200 <=? n then
    let ntest := n / 100 + 1 in
    filter (fun p : ascii * list nat => length p.2 ≤ ntest) b2j
  else b2j.

Definition isbjunk (c : ascii) : bool := false.

Section find_longest_match.
Variables (a b : str) (b2j : gmap ascii (list nat)).

(** [a[i] == b[j]], both in range *)
Definition same_at (i j : nat) : bool :=
  match a !! i, b !! j with
  | Some x, Some y => Ascii.eqb x y
  | _, _ => false
  end.

Definition junk_at (j : nat) : bool :=
  match b !! j with
  | Some y => isbjunk y
  | None => false
  end.

(** [j2len.get(j-1, 0)]; for [j = 0] the key is [-1], never present *)
Definition j2lenget (j2len : gmap nat nat) (j : nat) : nat :=
  match j with
  | O => 0
  | S j' => get (j2len !! j') 0
  end.

(** The loop [for j in b2j.get(a[i], nothing)] with its [continue]
    and [break]. *)
Fixpoint scan_row (blo bhi i : nat) (j2len : gmap nat nat) (js : list nat)
    (newj2len : gmap nat nat) (best : block) : gmap nat nat * block :=
  match js with
  | [] => (newj2len, best)
  | j :: js' =>
      if j <? blo then scan_row blo bhi i j2len js' newj2len best
      else if bhi <=? j then (newj2len, best)
      else
        let k := j2lenget j2len j + 1 in
        let newj2len := <[j := k]> newj2len in
        let best :=
          if best.2 <? k then (i + 1 - k, j + 1 - k, k) else best in
        scan_row blo bhi i j2len js' newj2len best
  end.

(** [b2j.get(a[i], nothing)] *)
Definition candidates (i : nat) : list nat :=
  match a !! i with
  | Some c => get (b2j !! c) []
  | None => []
  end.

(** The loop [for i in range(alo, ahi)]. *)
Fixpoint scan_rows (blo bhi : nat) (rows : list nat)
    (j2len : gmap nat nat) (best : block) : block :=
  match rows with
  | [] => best
  | i :: rows' =>
      let '(newj2len, best) :=
        scan_row blo bhi i j2len (candidates i) ∅ best in
      scan_rows blo bhi rows' newj2len best
  end.

(** The two [while] loops that grow the block to the left; [junk]
    selects the first ([false]) or the second ([true]) of them. *)
Fixpoint extend_left (junk : bool) (alo blo besti bestj bestsize : nat)
  : block :=
  match besti with
  | O => (besti, bestj, bestsize)
  | S i' =>
      if (alo <? besti) && (blo <? bestj)
         && eqb (junk_at (bestj - 1)) junk && same_at i' (bestj - 1)
      then extend_left junk alo blo i' (bestj - 1) (bestsize + 1)
      else (besti, bestj, bestsize)
  end.

(** The two [while] loops that grow the block to the right; [room]
    is [ahi - (besti + bestsize)], the number of times the test
    [besti + bestsize < ahi] can still succeed. *)
Fixpoint extend_right (junk : bool) (room bhi besti bestj bestsize : nat)
  : nat :=
  match room with
  | O => bestsize
  | S room' =>
      if (bestj + bestsize <? bhi)
         && eqb (junk_at (bestj + bestsize)) junk
         && same_at (besti + bestsize) (bestj + bestsize)
      then extend_right junk room' bhi besti bestj (bestsize + 1)
      else bestsize
  end.

Definition find_longest_match (alo ahi blo bhi : nat) : block :=
  let '(besti, bestj, bestsize) :=
    scan_rows blo bhi (seq alo (ahi - alo)) ∅ (alo, blo, 0) in
  let '(besti, bestj, bestsize) :=
    extend_left false alo blo besti bestj bestsize in
  let bestsize :=
    extend_right false (ahi - (besti + bestsize)) bhi besti bestj bestsize in
  let '(besti, bestj, bestsize) :=
    extend_left true alo blo besti bestj bestsize in
  let bestsize :=
    extend_right true (ahi - (besti + bestsize)) bhi besti bestj bestsize in
  (besti, bestj, bestsize).

(** The [while queue] loop of [get_matching_blocks].  The Python list
    [queue] is used as a stack: its last element is the head here.
    [fuel] bounds the number of iterations. *)
Fixpoint blocks_loop (fuel : nat) (queue : list (nat * nat * nat * nat))
    (matching_blocks : list block) : option (list block) :=
  match queue with
  | [] => Some matching_blocks
  | (alo, ahi, blo, bhi) :: queue =>
      match fuel with
      | O => None
      | S fuel =>
          let '(i, j, k) := find_longest_match alo ahi blo bhi in
          if k =? 0 then blocks_loop fuel queue matching_blocks
          else
            let matching_blocks := matching_blocks ++ [(i, j, k)] in
            let queue :=
              if (alo <? i) && (blo <? j)
              then (alo, i, blo, j) :: queue else queue in
            let queue :=
              if (i + k <? ahi) && (j + k <? bhi)
              then (i + k, ahi, j + k, bhi) :: queue else queue in
            blocks_loop fuel queue matching_blocks
      end
  end.
End find_longest_match.

(** [get_matching_blocks], up to the final sorting and merging of
    adjacent blocks, which do not change the sum of the sizes that
    [ratio] takes.  Every iteration either drops a region or splits it
    around a non-empty block, so [2 * len(a) + 1] iterations are
    enough ([get_matching_blocks_total] below). *)
Definition get_matching_blocks (a b : str) : option (list block) :=
  let b2j := chain_b b in
  blocks_loop a b b2j (2 * length a + 1) [(0, length a, 0, length b)] [].

(** [_calculate_ratio] *)
Definition calculate_ratio (matches len : nat) : Q :=
  match len with
  | O => 1
  | S _ => Qmake (2 * Z.of_nat matches) (Pos.of_nat len)
  end.

Definition matches_of (blocks : list block) : nat :=
  foldr (fun x acc => x.2 + acc) 0 blocks.

(** [SequenceMatcher.ratio] *)
Definition ratio (a b : str) : Q :=
  match get_matching_blocks a b with
  | Some blocks => calculate_ratio (matches_of blocks) (length a + length b)
  | None => 0
  end.

(** [similarity(a, b)] *)
Definition similarity (a b : str) : Q := ratio a b.

(** [x > y] on scores *)
Definition Qgtb (x y : Q) : bool := negb (Qle_bool x y).

(* ================================================================== *)
(** ** Text and query system *)

Definition synonyms : list (str * str) :=
  map (fun p : string * string => (lit p.1, lit p.2))
    [ ("faculties", "faculty");
      ("professors", "faculty");
      ("teachers", "faculty");
      ("lecturers", "faculty");
      ("staffs", "staff");
      ("incharge", "hod");
      ("head of department", "hod");
      ("leader", "hod");
      ("head", "hod");
      ("dept", "department");
      ("academic calendar", "calendar");
      ("calendar of events", "calendar");
      ("event calendar", "calendar");
      ("events calendar", "calendar");
      ("time table", "timetable");
      ("time-table", "timetable");
      ("fees", "fee");
      ("examination", "exam");
      ("7th sem", "seventh semester");
      ("7th semester", "seventh semester");
      ("7 th sem", "seventh semester") ].

(** The loop [for word, replacement in synonyms.items()]. *)
Definition apply_synonyms (table : list (str * str)) (q : str) : str :=
  foldl (fun q p => replace p.1 p.2 q) q table.

Definition normalize_text (q : str) : str :=
  apply_synonyms synonyms (strip (lower q)).

Definition contains_any (q : str) (ws : list str) : bool :=
  existsb (fun w => str_in w q) ws.

Definition intent_match (q : str) (keywords : list str) : bool :=
  existsb (fun k => str_in k q || Qgtb (similarity q k) (72 # 100)) keywords.

(* ================================================================== *)
(** ** Knowledge base

    One record per kind of JSON object, with the keys the program
    reads.  A key of an object whose truth value the program tests
    ([if dept:], [if qa:], ...) is an [option], [None] when the key is
    absent; a list that is only iterated is a plain list, empty when
    the key is absent. *)

Record faculty_member := { fm_name : option str }.

Record department := {
  dept_name : option str;
  dept_short : option str;
  dept_hod : option str;
  dept_location : option str;
  dept_directions : option str;
  dept_faculty : option (list faculty_member);
  dept_courses : option (list str) }.

Record calendar_event := { ev_title : option str; ev_date : option str }.

Record timetable_row := { row_day : option str; row_periods : option (list str) }.

Record subject := {
  subj_code : option str;
  subj_name : option str;
  subj_faculty : option str;
  subj_credits : option nat }.

Record qna := { qa_question : option str; qa_answer : option str }.

Record dept_fee := { fee_tuition : option str; fee_exam : option str }.

Record fees_info := {
  exam_fee_last_date : option str;
  tuition_fee_last_date : option str;
  payment_portal : option str;
  department_fees : gmap str dept_fee }.

Record facility := {
  fac_name : option str;
  fac_location : option str;
  fac_hours : option str;
  fac_directions : option str;
  fac_notes : option str }.

Record lab := {
  lab_name : option str;
  lab_location : option str;
  lab_directions : option str }.

Record event := {
  event_title : option str;
  event_date : option str;
  event_venue : option str }.

Record person := {
  person_name : option str;
  person_specialization : option str;
  person_contact : option str }.

Record college_info := {
  college_name : option str;
  principal : person;
  vice_principal : person }.

Record knowledge_base := {
  college : college_info;
  departments : list department;
  fees : fees_info;
  facilities : list facility;
  labs : list lab;
  events : list event;
  CAL_EVENTS : list calendar_event;
  TT_A : list timetable_row;
  TT_B : list timetable_row;
  SUBJECTS : list subject;
  SEM_QNA : list qna }.

(** Truth value of a dictionary: it has a key. *)
Definition has {A} (field : option A) : bool :=
  match field with Some _ => true | None => false end.

Definition dept_true (d : department) : bool :=
  has (dept_name d) || has (dept_short d) || has (dept_hod d)
  || has (dept_location d) || has (dept_directions d)
  || has (dept_faculty d) || has (dept_courses d).

Definition ev_true (ev : calendar_event) : bool :=
  has (ev_title ev) || has (ev_date ev).

Definition qa_true (qa : qna) : bool :=
  has (qa_question qa) || has (qa_answer qa).

Definition subj_true (s : subject) : bool :=
  has (subj_code s) || has (subj_name s) || has (subj_faculty s)
  || has (subj_credits s).

Definition row_true (r : timetable_row) : bool :=
  has (row_day r) || has (row_periods r).

(* ================================================================== *)
(** ** Entity finders *)

(** The scoring loop the four finders share:
[[
    for x in candidates:
        for key in keys(x):
            score = similarity(q, key)
            if score > best_score:
                best_score = score
                best = x
]]
    [keys x] lists the (lower-cased) keys of a candidate in the order
    the finder scores them. *)
Section scoring.
Context {A : Type} (keys : A -> list str) (q : str).

Definition score_key (x : A) (st : option A * Q) (key : str) : option A * Q :=
  let score := similarity q key in
  if Qgtb score st.2 then (Some x, score) else st.

Definition score_candidate (st : option A * Q) (x : A) : option A * Q :=
  foldl (score_key x) st (keys x).

Definition best_match (candidates : list A) : option A * Q :=
  foldl score_candidate (None, 0%Q) candidates.

(** [if best_score > threshold: return best; return None] *)
Definition accept (threshold : Q) (st : option A * Q) : option A :=
  if Qgtb st.2 threshold then st.1 else None.
End scoring.

Definition dept_in_query (query_lc : str) (dept : department) : bool :=
  let name := lower (get (dept_name dept) "") in
  let short := lower (get (dept_short dept) "") in
  str_in name query_lc || str_in short query_lc.

(** The first loop of [find_department]. *)
Fixpoint first_dept_in_query (query_lc : str) (depts : list department)
  : option department :=
  match depts with
  | [] => None
  | dept :: depts' =>
      if dept_in_query query_lc dept then Some dept
      else first_dept_in_query query_lc depts'
  end.

Definition dept_keys (dept : department) : list str :=
  [lower (get (dept_name dept) ""); lower (get (dept_short dept) "")].

Definition find_department (kb : knowledge_base) (query_lc : str)
  : option department :=
  match first_dept_in_query query_lc (departments kb) with
  | Some dept => Some dept
  | None => accept (6 # 10) (best_match dept_keys query_lc (departments kb))
  end.

Definition ev_keys (ev : calendar_event) : list str :=
  [lower (get (ev_title ev) "" ++ " " ++ get (ev_date ev) "")].

Definition find_calendar_event (kb : knowledge_base) (q : str)
  : option calendar_event :=
  accept (55 # 100) (best_match ev_keys q (CAL_EVENTS kb)).

Definition qa_keys (qa : qna) : list str :=
  [lower (get (qa_question qa) "")].

Definition find_semantic_qna (kb : knowledge_base) (q : str) : option qna :=
  accept (7 # 10) (best_match qa_keys q (SEM_QNA kb)).

Definition subj_keys (s : subject) : list str :=
  [lower (get (subj_name s) ""); lower (get (subj_code s) "")].

Definition find_subject_by_name_or_code (kb : knowledge_base) (q : str)
  : option subject :=
  accept (6 # 10) (best_match subj_keys q (SUBJECTS kb)).

Fixpoint find_day_timetable (tt_list : list timetable_row) (day_name : str)
  : option timetable_row :=
  match tt_list with
  | [] => None
  | row :: tt_list' =>
      if bool_decide (lower (get (row_day row) "") = lower day_name)
      then Some row
      else find_day_timetable tt_list' day_name
  end.

(* ================================================================== *)
(** ** Timetable renderers *)

Definition th (i : nat) : str := "<th>P" ++ str_of_nat i ++ "</th>".
Definition td (p : str) : str := "<td>" ++ p ++ "</td>".

(** [f"<th>P{i}</th>" for i in range(1, n + 1)] *)
Definition header_cells (n : nat) : list str := map th (seq 1 n).

(** [max(len(r.get("periods", [])) for r in tt_list)], [tt_list] not empty *)
Definition max_periods (tt_list : list timetable_row) : nat :=
  foldr Nat.max 0 (map (fun r => length (get (row_periods r) [])) tt_list).

(** The period cells of one row of the full table: the row's own
    periods, then the ["<td>-</td>"] cells that fill it up. *)
Definition full_row_cells (max_periods : nat) (r : timetable_row) : list str :=
  let periods := get (row_periods r) [] in
  let row_cells := map td periods in
  if length periods <? max_periods
  then row_cells ++ repeat (lit "<td>-</td>") (max_periods - length periods)
  else row_cells.

Definition full_row_html (max_periods : nat) (r : timetable_row) : str :=
  "<tr><td>" ++ get (row_day r) "" ++ "</td>"
  ++ join "" (full_row_cells max_periods r) ++ "</tr>".

Definition table_html (title : str) (header_cells : list str) (rows_html : list str)
  : str :=
  join newline
    [ lit "";
      "    <div class=" ++ dquote ++ "timetable-container" ++ dquote ++ ">";
      "      <strong>" ++ title ++ "</strong>";
      "      <table class=" ++ dquote ++ "timetable" ++ dquote ++ ">";
      lit "        <thead>";
      "          <tr><th>Day</th>" ++ join "" header_cells ++ "</tr>";
      lit "        </thead>";
      lit "        <tbody>";
      "          " ++ join "" rows_html;
      lit "        </tbody>";
      lit "      </table>";
      lit "    </div>";
      lit "    " ].

Definition build_full_timetable_html (tt_list : list timetable_row)
    (section_label : str) : str :=
  match tt_list with
  | [] => "Timetable information is not available."
  | _ :: _ =>
      let max_periods := max_periods tt_list in
      table_html ("📅 7th Semester " ++ upper section_label ++ " Timetable")
        (header_cells max_periods)
        (map (full_row_html max_periods) tt_list)
  end.

(** The period cells of the single-day table. *)
Definition single_row_cells (row : timetable_row) : list str :=
  map td (get (row_periods row) []).

Definition build_single_day_table_html (row : timetable_row)
    (section_label : str) : str :=
  let periods := get (row_periods row) [] in
  match periods with
  | [] => "No timetable available for " ++ get (row_day row) "this day" ++ "."
  | _ :: _ =>
      table_html
        ("📋 " ++ capitalize (get (row_day row) "") ++ " - 7th Sem "
         ++ upper section_label)
        (header_cells (length periods))
        ["<tr><td>" ++ get (row_day row) "" ++ "</td>"
         ++ join "" (single_row_cells row) ++ "</tr>"]
  end.

(* ================================================================== *)
(** ** The intent router, [answer_query] *)

(** [l[0]] *)
Definition index0 {A} (l : list A) : result A :=
  match l with
  | x :: _ => Ok x
  | [] => Raise IndexError
  end.

(** The value of an optional string when it is true (present and
    non-empty): [t = d.get(key)] followed by [if t:]. *)
Definition if_true (field : option str) : option str :=
  match field with
  | Some (c :: s) => Some (c :: s)
  | _ => None
  end.

(** [[f"{label}{v}"] if v else []] *)
Definition part_if (label v : str) : list str :=
  if truthy v then [label ++ v] else [].

Definition fallback : str :=
  "I can help with details about principal, <strong>vice principal</strong>, HOD, faculty, fees, <strong>timetable tables</strong>, "
  ++ "departments, labs, facilities, semester calendar events, subjects, and academic calendar PDF. "
  ++ "Try asking: 'Vice principal', 'CSE HOD', '<strong>Monday timetable for 7th sem A</strong>', "
  ++ "'Who teaches IoT?', or 'Exam fee last date?'.".

(** The [if] blocks of [answer_query], in the order of the source. *)
Inductive intent :=
| DirectQna | CalendarLink | CalendarEvent | VicePrincipal | Principal
| Hod | Faculty | Fees | Departments | Timetable | Subjects | Facilities
| Labs | Events | CollegeName | Directions.

Global Instance intent_eq_dec : EqDecision intent.
Proof. solve_decision. Defined.

Definition intent_chain : list intent :=
  [ DirectQna; CalendarLink; CalendarEvent; VicePrincipal; Principal;
    Hod; Faculty; Fees; Departments; Timetable; Subjects; Facilities;
    Labs; Events; CollegeName; Directions ].

Section handlers.
Variable kb : knowledge_base.

(** The condition of each [if] block. *)
Definition gate (i : intent) (q : str) : bool :=
  match i with
  | DirectQna =>
      match find_semantic_qna kb q with
      | Some qa => qa_true qa
      | None => false
      end
  | CalendarLink =>
      intent_match q (words ["calendar"; "schedule of events";
                             "exam schedule"; "academic schedule"])
  | CalendarEvent =>
      intent_match q
        (words ["independence day"; "ganesha"; "deepavali"; "conference";
                "rajyotsava"; "phase-1"; "phase-2"; "cie-1"; "cie-2";
                "industrial visit"; "last working day"; "lab internals";
                "report submission"; "practical exams"; "theory exams"])
  | VicePrincipal =>
      contains_any q (words ["vice principal"; "viceprincipal"; "vp";
                             "assistant principal"])
  | Principal =>
      contains_any q (words ["principal"; "head of college";
                             "college principal"])
  | Hod => intent_match q (words ["hod"; "head of department"])
  | Faculty => intent_match q (words ["faculty"; "professor"; "staff"])
  | Fees => intent_match q (words ["fee"; "exam fee"; "payment"; "tuition"])
  | Departments =>
      intent_match q (words ["department"; "cse"; "ece"; "computer";
                             "electronics"])
      && negb (intent_match q (words ["hod"; "faculty"; "professor"; "staff"]))
  | Timetable =>
      intent_match q (words ["timetable"; "class schedule"; "time table";
                             "periods"])
  | Subjects =>
      intent_match q (words ["subject"; "code"; "credits"; "faculty for";
                             "who teaches"; "teacher of"])
  | Facilities =>
      intent_match q (words ["library"; "canteen"; "hostel"; "facility";
                             "facilities"])
  | Labs => intent_match q (words ["lab"; "laboratory"])
  | Events =>
      intent_match q (words ["event"; "orientation"; "hackathon"; "function"])
  | CollegeName =>
      intent_match q (words ["college name"; "what is this college";
                             "which college"; "name of college"])
  | Directions =>
      contains_any q (words ["where is"; "location of"; "how to reach";
                             "how do i go"])
  end.

(** [find_department(q)] followed by [if dept:] *)
Definition resolve_department (q : str) : option department :=
  match find_department kb q with
  | Some dept => if dept_true dept then Some dept else None
  | None => None
  end.

Definition vice_principal_answer : str :=
  let vp := vice_principal (college kb) in
  let name := get (person_name vp) "Not available" in
  let spec := get (person_specialization vp) "" in
  let detail := if truthy spec then " (Specialization: " ++ spec ++ ")" else "" in
  "Vice Principal: " ++ name ++ detail.

Definition principal_answer : str :=
  let p := principal (college kb) in
  let name := get (person_name p) "Not available" in
  let spec := get (person_specialization p) "" in
  let contact := get (person_contact p) "" in
  let extra := part_if "Specialization: " spec ++ part_if "Contact: " contact in
  let detail := join " · " extra in
  "Principal: " ++ name ++ (if truthy detail then " (" ++ detail ++ ")" else "").

Definition hod_answer (q : str) : result str :=
  match resolve_department q with
  | Some dept =>
      name ← subscript (dept_name dept);
      Ok ("HOD of " ++ name ++ ": " ++ get (dept_hod dept) "Not available")
  | None => Ok (lit "Please specify a valid department for HOD information.")
  end.

Definition faculty_answer (q : str) : result str :=
  match resolve_department q with
  | Some dept =>
      names ← mapM (fun f => subscript (fm_name f)) (get (dept_faculty dept) []);
      let members := join ", " names in
      name ← subscript (dept_name dept);
      Ok (name ++ " Faculty Members: " ++ members)
  | None => Ok (lit "Please specify a valid department for faculty information.")
  end.

Definition fees_answer (q : str) : result str :=
  let exam_last := get (exam_fee_last_date (fees kb)) "N/A" in
  let tuition_last := get (tuition_fee_last_date (fees kb)) "N/A" in
  let portal := get (payment_portal (fees kb)) "N/A" in
  match resolve_department q with
  | Some dept =>
      let short := lower (get (dept_short dept) "") in
      let dept_fees := department_fees (fees kb) !! short in
      let t := if_true (dept_fees ≫= fee_tuition) in
      let e := if_true (dept_fees ≫= fee_exam) in
      p1 ← match t with
           | Some t => name ← subscript (dept_name dept);
                       Ok [name ++ " Tuition: " ++ t]
           | None => Ok []
           end;
      p2 ← match e with
           | Some e => name ← subscript (dept_name dept);
                       Ok [name ++ " Exam Fee: " ++ e]
           | None => Ok []
           end;
      Ok (join " | "
            (p1 ++ p2 ++ ["Tuition Last Date: " ++ tuition_last;
                          "Exam Fee Last Date: " ++ exam_last;
                          "Payment via: " ++ portal]))
  | None =>
      Ok ("Tuition Last Date: " ++ tuition_last ++ " | Exam Fee Last Date: "
          ++ exam_last ++ " | Payment via: " ++ portal)
  end.

Definition departments_answer (q : str) : str :=
  match resolve_department q with
  | Some dept =>
      let name := get (dept_name dept) "Department" in
      let loc := get (dept_location dept) "Location not available" in
      let joined := join ", " (get (dept_courses dept) []) in
      let courses := if truthy joined then joined else "Not specified" in
      name ++ " is located at " ++ loc ++ ". Courses offered: " ++ courses ++ "."
  | None => "Please specify a valid department."
  end.

Definition timetable_answer (q : str) : str :=
  let section : str :=
    if str_in " section b" q || str_in " b " q || str_in "sem b" q
    then "B" else "A" in
  let tt_list := if bool_decide (section = lit "A") then TT_A kb else TT_B kb in
  let days := words ["monday"; "tuesday"; "wednesday"; "thursday"; "friday"] in
  match find (fun d => str_in d q) days with
  | Some day_in_q =>
      match find_day_timetable tt_list day_in_q with
      | Some row =>
          if row_true row then build_single_day_table_html row section
          else "Timetable for " ++ capitalize day_in_q ++ " (7th sem "
               ++ section ++ ") not available."
      | None =>
          "Timetable for " ++ capitalize day_in_q ++ " (7th sem "
          ++ section ++ ") not available."
      end
  | None => build_full_timetable_html tt_list section
  end.

Definition subjects_answer (q : str) : str :=
  match find_subject_by_name_or_code kb q with
  | Some subj =>
      if subj_true subj then
        let code := get (subj_code subj) "" in
        let name := get (subj_name subj) "" in
        let fac := get (subj_faculty subj) "Faculty not specified" in
        let parts := [code ++ " — " ++ name; "Faculty: " ++ fac] in
        let parts :=
          match subj_credits subj with
          | Some credits => parts ++ ["Credits: " ++ str_of_nat credits]
          | None => parts
          end in
        join " | " parts
      else "Please specify a valid subject."
  | None => "Please specify a valid subject."
  end.

(** [name_l and name_l in q], the test of the facility loops *)
Definition facility_in_query (q : str) (f : facility) : bool :=
  let name_l := lower (get (fac_name f) "") in
  truthy name_l && str_in name_l q.

Definition facilities_answer (q : str) : option (result str) :=
  let facs := facilities kb in
  match find (facility_in_query q) facs with
  | Some f =>
      Some (
        let loc := get (fac_location f) "Location not available" in
        let hours := get (fac_hours f) "" in
        let dirn := get (fac_directions f) "" in
        let notes := get (fac_notes f) "" in
        name ← subscript (fac_name f);
        Ok (join " | "
              ([name ++ " — " ++ loc] ++ part_if "Hours: " hours
               ++ part_if "Notes: " notes ++ part_if "Directions: " dirn)))
  | None =>
      let brief :=
        map (fun f => get (fac_name f) "Facility" ++ " — "
                      ++ get (fac_location f) "Location not available") facs in
      match brief with
      | [] => None
      | _ :: _ => Some (Ok ("Facilities: " ++ join " | " brief))
      end
  end.

(** [name_l and (name_l in q or name_l.split()[0] in q)] *)
Definition lab_in_query (q : str) (l : lab) : result bool :=
  let name_l := lower (get (lab_name l) "") in
  if negb (truthy name_l) then Ok false
  else if str_in name_l q then Ok true
  else first_word ← index0 (split name_l); Ok (str_in first_word q).

(** The loop [for lab in labs] with its [return]. *)
Fixpoint first_lab_in_query (q : str) (ls : list lab) : result (option lab) :=
  match ls with
  | [] => Ok None
  | l :: ls' =>
      hit ← lab_in_query q l;
      if hit : bool then Ok (Some l) else first_lab_in_query q ls'
  end.

Definition labs_answer (q : str) : option (result str) :=
  match first_lab_in_query q (labs kb) with
  | Raise e => Some (Raise e)
  | Ok (Some l) =>
      Some (
        let loc := get (lab_location l) "Location not available" in
        let dirn := get (lab_directions l) "" in
        name ← subscript (lab_name l);
        Ok (join " | " ([name ++ " — " ++ loc] ++ part_if "Directions: " dirn)))
  | Ok None =>
      let short :=
        map (fun l => get (lab_name l) "Lab" ++ " — "
                      ++ get (lab_location l) "Location not available")
            (labs kb) in
      match short with
      | [] => None
      | _ :: _ => Some (Ok ("Labs: " ++ join " | " short))
      end
  end.

Definition events_answer : str :=
  match events kb with
  | [] => "No events information is available right now."
  | _ :: _ =>
      let lines :=
        map (fun e => get (event_title e) "Event" ++ " — "
                      ++ get (event_date e) "Date N/A" ++ " at "
                      ++ get (event_venue e) "Venue N/A") (events kb) in
      "Upcoming / scheduled events: " ++ join " | " lines
  end.

Definition directions_answer (q : str) : option (result str) :=
  match resolve_department q with
  | Some dept =>
      Some (
        let loc := get (dept_location dept) "Location not available" in
        let dirn := get (dept_directions dept) "" in
        name ← subscript (dept_name dept);
        Ok (name ++ " is at " ++ loc ++ "."
            ++ (if truthy dirn then " Directions: " ++ dirn else "")))
  | None =>
      match find (facility_in_query q) (facilities kb) with
      | Some f =>
          Some (
            let loc := get (fac_location f) "Location not available" in
            let dirn := get (fac_directions f) "" in
            name ← subscript (fac_name f);
            Ok (name ++ " is at " ++ loc ++ "."
                ++ (if truthy dirn then " Directions: " ++ dirn else "")))
      | None => None
      end
  end.

(** The body of each [if] block: [Some r] when the block returns (or
    raises) [r], [None] when control leaves the block without a
    [return] and reaches the next [if]. *)
Definition handler (i : intent) (q : str) : option (result str) :=
  match i with
  | DirectQna =>
      qa ← find_semantic_qna kb q;
      Some (Ok (get (qa_answer qa) "Information not available."))
  | CalendarLink =>
      Some (Ok (lit "You can view or download the Academic Calendar here: <a href='/calendar' target='_blank'>Open Academic Calendar (PDF)</a>"))
  | CalendarEvent =>
      match find_calendar_event kb q with
      | Some ev =>
          if ev_true ev
          then Some (Ok (get (ev_title ev) "Event" ++ ": "
                         ++ get (ev_date ev) "Date not available" ++ "."))
          else None
      | None => None
      end
  | VicePrincipal => Some (Ok vice_principal_answer)
  | Principal => Some (Ok principal_answer)
  | Hod => Some (hod_answer q)
  | Faculty => Some (faculty_answer q)
  | Fees => Some (fees_answer q)
  | Departments => Some (Ok (departments_answer q))
  | Timetable => Some (Ok (timetable_answer q))
  | Subjects => Some (Ok (subjects_answer q))
  | Facilities => facilities_answer q
  | Labs => labs_answer q
  | Events => Some (Ok events_answer)
  | CollegeName =>
      Some (Ok ("This helpdesk is for: "
                ++ get (college_name (college kb)) "Our College" ++ "."))
  | Directions => directions_answer q
  end.

(** The chain of [if] blocks, ending in the fallback [return]. *)
Fixpoint route (chain : list intent) (q : str) : result str :=
  match chain with
  | [] => Ok fallback
  | i :: chain' =>
      if gate i q then
        match handler i q with
        | Some r => r
        | None => route chain' q
        end
      else route chain' q
  end.

Definition answer_query (query : str) : result str :=
  let q := normalize_text query in
  route intent_chain q.
End handlers.

(* ================================================================== *)
(** ** Multi-question splitter and the [/ask] handler *)

(** The character class [[\.\?\;]] *)
Definition is_punct (c : ascii) : bool :=
  Ascii.eqb c "." || Ascii.eqb c "?" || Ascii.eqb c ";".

(** Length of the longest prefix whose characters satisfy [f]: what a
    greedy [\s*] or [[\.\?\;]+] consumes. *)
Fixpoint span (f : ascii -> bool) (s : str) : nat :=
  match s with
  | [] => 0
  | c :: s' => if f c then S (span f s') else 0
  end.

(** Length of the match of [\s*[\.\?\;]+\s*|\s+and\s+] at the start of
    [s], if there is one.  White space, punctuation and the letter [a]
    are disjoint, so giving back characters of a greedy run never
    helps, and the first alternative is tried first. *)
Definition match_separator (s : str) : option nat :=
  let w := span is_space s in
  let s1 := drop w s in
  let p := span is_punct s1 in
  if 0 <? p then Some (w + p + span is_space (drop p s1))
  else if (0 <? w) && startswith "and" s1 then
    let w2 := span is_space (drop 3 s1) in
    if 0 <? w2 then Some (w + 3 + w2) else None
  else None.

(** [re.split(pattern, text)] for a pattern without groups that matches
    no empty string: the text between the successive leftmost matches.
    [cur] is the piece being read, [skip] the number of characters of
    the current match still to pass over. *)
Fixpoint re_split_from (skip : nat) (cur : str) (s : str) : list str :=
  match s with
  | [] => [cur]
  | c :: s' =>
      match skip with
      | S n => re_split_from n cur s'
      | O =>
          match match_separator s with
          | Some (S n) => cur :: re_split_from n [] s'
          | _ => re_split_from 0 (cur ++ [c]) s'
          end
      end
  end.

Definition re_split (text : str) : list str := re_split_from 0 [] text.

Definition split_questions (text : str) : list str :=
  let parts := re_split text in
  map strip (filter (fun q => truthy (strip q) = true) parts).

(** The body of [ask], from the [question] field of the request to the
    [answer] field of the response.  The field is missing or null
    ([None]) or a string; [(data.get("question") or "")] reads both
    [None] and the empty string as the empty string.  A value of another
    JSON type (a number, a list) has no [strip] and is not modelled. *)
Definition ask (kb : knowledge_base) (question : option str) : result str :=
  let query := strip (get question "") in
  if negb (truthy query) then Ok (lit "Please type a question.")
  else
    let questions := split_questions query in
    answers ← mapM (answer_query kb) questions;
    Ok (join "<br>" answers).

(** [positions i c b]: the positions of [c] in [b], counted from [i];
    the value [__chain_b] stores under [c]. *)
Fixpoint positions (i : nat) (c : ascii) (b : str) : list nat :=
  match b with
  | [] => []
  | x :: b' =>
      (if Ascii.eqb x c then [i] else []) ++ positions (S i) c b'
  end.

(** ** Vocabulary of the statements *)

Section blocks.
Variables a b : str.

(** A block inside the region [a[alo:ahi]], [b[blo:bhi]] whose two
    sides are equal, character by character. *)
Definition good_block (alo ahi blo bhi : nat) (x : block) : Prop :=
  let '(i, j, k) := x in
  alo ≤ i ∧ i + k ≤ ahi ∧ blo ≤ j ∧ j + k ≤ bhi
  ∧ ∀ t, t < k → same_at a b (i + t) (j + t) = true.

(** [m] characters matched inside a region: no more than either
    side has, and if it is all of both sides, the two sides are the
    same string. *)
Definition region_ok (r : nat * nat * nat * nat) (m : nat) : Prop :=
  let '(alo, ahi, blo, bhi) := r in
  m ≤ ahi - alo ∧ m ≤ bhi - blo
  ∧ (m = ahi - alo → m = bhi - blo →
     ∀ t, t < m → a !! (alo + t) = b !! (blo + t)).

(** The entries of [j2len] before row [i]: lengths of runs of equal
    characters that end in row [i - 1]. *)
Definition row_ok (alo blo bhi i : nat) (j2len : gmap nat nat) : Prop :=
  ∀ j k, j2len !! j = Some k →
    1 ≤ k ∧ alo + k ≤ i ∧ blo + k ≤ j + 1 ∧ j < bhi
    ∧ ∀ t, t < k → same_at a b (i - 1 - t) (j - t) = true.

Definition region_wf (r : nat * nat * nat * nat) : Prop :=
  let '(alo, ahi, blo, bhi) := r in alo ≤ ahi ∧ blo ≤ bhi.
End blocks.

(** The number of iterations the regions of a queue can still cause. *)
Definition queue_cost (queue : list (nat * nat * nat * nat)) : nat :=
  foldr (fun r acc => let '(alo, ahi, _, _) := r in 2 * (ahi - alo) + 1 + acc)
        0 queue.

(** [run a b2j n]: how many positions just before [n] carry, without a
    gap, a character that [b2j] indexes. *)
Fixpoint run (a : str) (b2j : gmap ascii (list nat)) (n : nat) : nat :=
  match n with
  | O => 0
  | S i =>
      match candidates a b2j i with
      | [] => 0
      | _ :: _ => S (run a b2j i)
      end
  end.

(** The state of [find_longest_match] before row [i] when a string is
    matched with itself: the entries of [j2len] are bounded by the runs,
    the entry on the diagonal is the run, and the best block lies on
    the diagonal and is at least as long as every run seen. *)
Definition diag_state (a : str) (b2j : gmap ascii (list nat)) (i : nat)
    (j2len : gmap nat nat) (best : block) : Prop :=
  (∀ j k, j2len !! j = Some k → k ≤ run a b2j (S j) ∧ k ≤ run a b2j i)
  ∧ (∀ i', i = S i' → candidates a b2j i' ≠ [] →
       j2len !! i' = Some (run a b2j i))
  ∧ best.1.1 = best.1.2 ∧ best.1.1 + best.2 ≤ i
  ∧ ∀ i', i' ≤ i → run a b2j i' ≤ best.2.

(** What a finder's similarity phase returns: a candidate one of whose
    keys scores above the threshold and at least as high as every key
    of every candidate; nothing when no key scores above the
    threshold. *)
Definition finder_spec {A} (keys : A -> list str) (threshold : Q) (q : str)
    (candidates : list A) (r : option A) : Prop :=
  match r with
  | Some x =>
      x ∈ candidates
      ∧ ∃ key, key ∈ keys x ∧ (threshold < similarity q key)%Q
               ∧ ∀ x' key', x' ∈ candidates → key' ∈ keys x' →
                   (similarity q key' <= similarity q key)%Q
  | None =>
      ∀ x' key', x' ∈ candidates → key' ∈ keys x' →
        (similarity q key' <= threshold)%Q
  end.

(** What the substring phase of [find_department] returns: the first
    department, in the order of the list, whose name or short code
    occurs in the query. *)
Definition first_in_query_spec (q : str) (depts : list department)
    (r : option department) : Prop :=
  match r with
  | Some d =>
      ∃ pre post, depts = pre ++ d :: post
                  ∧ dept_in_query q d = true
                  ∧ Forall (fun d' => dept_in_query q d' = false) pre
  | None => Forall (fun d' => dept_in_query q d' = false) depts
  end.

(** A knowledge base with nothing in it, and sample records. *)
Definition nobody : person :=
  {| person_name := None; person_specialization := None;
     person_contact := None |}.

Definition empty_kb : knowledge_base :=
  {| college := {| college_name := None; principal := nobody;
                   vice_principal := nobody |};
     departments := [];
     fees := {| exam_fee_last_date := None; tuition_fee_last_date := None;
                payment_portal := None; department_fees := ∅ |};
     facilities := []; labs := []; events := [];
     CAL_EVENTS := []; TT_A := []; TT_B := []; SUBJECTS := [];
     SEM_QNA := [] |}.

Definition with_qna (bank : list qna) : knowledge_base :=
  {| college := college empty_kb; departments := [];
     fees := fees empty_kb; facilities := []; labs := []; events := [];
     CAL_EVENTS := []; TT_A := []; TT_B := []; SUBJECTS := [];
     SEM_QNA := bank |}.

Definition with_subjects (subjects : list subject) : knowledge_base :=
  {| college := college empty_kb; departments := [];
     fees := fees empty_kb; facilities := []; labs := []; events := [];
     CAL_EVENTS := []; TT_A := []; TT_B := []; SUBJECTS := subjects;
     SEM_QNA := [] |}.

Definition with_departments (depts : list department) : knowledge_base :=
  {| college := college empty_kb; departments := depts;
     fees := fees empty_kb; facilities := []; labs := []; events := [];
     CAL_EVENTS := []; TT_A := []; TT_B := []; SUBJECTS := [];
     SEM_QNA := [] |}.

Definition qna_cie : qna :=
  {| qa_question := Some (lit "When is CIE-1?");
     qa_answer := Some (lit "CIE-1 is in the <b>fifth week</b>.") |}.

Definition qna_cie_again : qna :=
  {| qa_question := Some (lit "when is cie-1?");
     qa_answer := Some (lit "See the calendar.") |}.

Definition qna_project : qna :=
  {| qa_question := Some (lit "Who coordinates the project work?");
     qa_answer := Some (lit "The project coordinator of the department.") |}.

Definition subject_iot : subject :=
  {| subj_code := Some (lit "21CS71"); subj_name := Some (lit "IoT");
     subj_faculty := Some (lit "Dr. Rao"); subj_credits := Some 3 |}.

(** A department record without the [name] key. *)
Definition dept_without_name : department :=
  {| dept_name := None; dept_short := Some (lit "CSE");
     dept_hod := Some (lit "Dr. Kumar"); dept_location := None;
     dept_directions := None; dept_faculty := None; dept_courses := None |}.

Definition dept_ece : department :=
  {| dept_name := Some (lit "Electronics and Communication Engineering");
     dept_short := Some (lit "ECE");
     dept_hod := Some (lit "Dr. Devi"); dept_location := Some (lit "Block B");
     dept_directions := None; dept_faculty := Some []; dept_courses := None |}.

Section scoring_vocabulary.
Context {A : Type} (keys : A -> list str) (q : str).

(** The (candidate, key) pairs in the order the loop scores them. *)
Definition scored_pairs (candidates : list A) : list (A * str) :=
  x ← candidates; (fun key => (x, key)) <$> keys x.

(** What the loop has established after the pairs [seen]. *)
Definition scored (seen : list (A * str)) (st : option A * Q) : Prop :=
  (0 <= st.2)%Q
  ∧ (∀ x key, (x, key) ∈ seen → (similarity q key <= st.2)%Q)
  ∧ (st.1 = None → st.2 = 0%Q)
  ∧ (∀ x, st.1 = Some x →
       ∃ key, (x, key) ∈ seen ∧ st.2 = similarity q key).
End scoring_vocabulary.

Definition dept_cse : department :=
  {| dept_name := Some (lit "Computer Science and Engineering");
     dept_short := Some (lit "CSE");
     dept_hod := Some (lit "Dr. Kumar"); dept_location := Some (lit "Block A");
     dept_directions := None; dept_faculty := None; dept_courses := None |}.

(** The blocks of [answer_query] that can be left without a [return]. *)
Definition may_fall_through : list intent :=
  [CalendarEvent; Facilities; Labs; Directions].

(** The blocks that subscript a record without a guard ([dept['name']],
    [f['name']] of a faculty member, [name_l.split()[0]]) and can end in
    an exception. *)
Definition may_raise : list intent := [Hod; Faculty; Fees; Labs; Directions].

Definition row_monday : timetable_row :=
  {| row_day := Some (lit "Monday");
     row_periods := Some [lit "IoT"; lit "Cloud"; lit "Project"] |}.

Definition row_tuesday : timetable_row :=
  {| row_day := Some (lit "Tuesday"); row_periods := Some [lit "Seminar"] |}.

(** The title lines of the two tables. *)
Definition full_title (section_label : str) : str :=
  "📅 7th Semester " ++ upper section_label ++ " Timetable".

Definition single_title (row : timetable_row) (section_label : str) : str :=
  "📋 " ++ capitalize (get (row_day row) "") ++ " - 7th Sem "
  ++ upper section_label.

(** A string of lower-case characters; a string that does not begin,
    or end, with white space. *)
Definition is_lower (s : str) : Prop := Forall (fun c => lower_char c = c) s.

Definition head_ok (s : str) : Prop :=
  match s with
  | [] => True
  | c :: _ => is_space c = false
  end.

Definition last_ok (s : str) : Prop := head_ok (rev s).

(** What the synonym table needs for the strings it rewrites to stay
    lower-case and trimmed: no empty phrase, and replacements that are
    lower-case, non-empty, and without white space at either end. *)
Definition table_ok (table : list (str * str)) : Prop :=
  Forall (fun p => p.1 ≠ [] ∧ p.2 ≠ [] ∧ is_lower p.2
                   ∧ head_ok p.2 ∧ last_ok p.2) table.

(** A separator of the questions: a run of [.], [?], [;] with the white
    space around it, or the word "and" between white space. *)
Definition is_separator (sep : str) : Prop :=
  (∃ w1 p w2, sep = w1 ++ p ++ w2
              ∧ Forall (fun c => is_space c = true) w1
              ∧ Forall (fun c => is_punct c = true) p ∧ p ≠ []
              ∧ Forall (fun c => is_space c = true) w2)
  ∨ (∃ w1 w2, sep = w1 ++ "and" ++ w2
              ∧ Forall (fun c => is_space c = true) w1 ∧ w1 ≠ []
              ∧ Forall (fun c => is_space c = true) w2 ∧ w2 ≠ []).

(** The text made of a first piece and of (separator, piece) pairs. *)
Definition weave (first : str) (rest : list (str * str)) : str :=
  first ++ concat (map (fun x => x.1 ++ x.2) rest).

(** A string of white space only (the empty string included). *)
Definition blank (s : str) : Prop := Forall (fun c => is_space c = true) s.

(** [x] is the first best-scoring candidate of [candidates]: one of its
    keys scores at least as high as every key of every candidate, and
    strictly higher than every key of the candidates before [x]. *)
Definition first_best {A} (keys : A -> list str) (q : str)
    (candidates : list A) (x : A) : Prop :=
  ∃ pre post key,
    candidates = pre ++ x :: post ∧ key ∈ keys x
    ∧ (∀ x' key', x' ∈ pre → key' ∈ keys x' →
         (similarity q key' < similarity q key)%Q)
    ∧ (∀ x' key', x' ∈ candidates → key' ∈ keys x' →
         (similarity q key' <= similarity q key)%Q).

(** What [find_day_timetable] returns: the first row of the list whose
    day is the asked one, letter case apart. *)
Definition first_row_spec (day_name : str) (tt_list : list timetable_row)
    (r : option timetable_row) : Prop :=
  match r with
  | Some row =>
      ∃ pre post, tt_list = pre ++ row :: post
                  ∧ lower (get (row_day row) "") = lower day_name
                  ∧ Forall (fun r' => lower (get (row_day r') "")
                                      ≠ lower day_name) pre
  | None =>
      Forall (fun r' => lower (get (row_day r') "") ≠ lower day_name) tt_list
  end.

Definition row_without_day : timetable_row :=
  {| row_day := None; row_periods := Some [lit "Library"] |}.

(** The records [answer_query] reads with a subscript: a department
    has a name, and so has each member of its faculty; the name of a
    lab, when not empty, has a character that is not white space (so
    that [name_l.split()[0]] exists). *)
Definition named_department (d : department) : Prop :=
  is_Some (dept_name d)
  ∧ Forall (fun f => is_Some (fm_name f)) (get (dept_faculty d) []).

Definition named_lab (l : lab) : Prop :=
  get (lab_name l) "" = [] ∨ forallb is_space (get (lab_name l) "") = false.

Definition names_present (kb : knowledge_base) : Prop :=
  Forall named_department (departments kb) ∧ Forall named_lab (labs kb).

Definition lab_iot : lab :=
  {| lab_name := Some (lit "IoT Lab"); lab_location := Some (lit "Block C");
     lab_directions := None |}.

Definition sample_kb : knowledge_base :=
  {| college := college empty_kb; departments := [dept_ece; dept_cse];
     fees := fees empty_kb; facilities := []; labs := [lab_iot]; events := [];
     CAL_EVENTS := []; TT_A := [row_monday; row_tuesday]; TT_B := [];
     SUBJECTS := [subject_iot]; SEM_QNA := [qna_project; qna_cie] |}.

(** The pattern of [split_questions] matches nowhere in [s]. *)
Fixpoint separator_free (s : str) : bool :=
  match s with
  | [] => true
  | _ :: s' =>
      match match_separator s with
      | Some (S _) => false
      | _ => separator_free s'
      end
  end.

Definition kb_unnamed_department : knowledge_base :=
  with_departments [dept_without_name].

(** The department record [{}]. *)
Definition dept_empty : department :=
  {| dept_name := None; dept_short := None; dept_hod := None;
     dept_location := None; dept_directions := None; dept_faculty := None;
     dept_courses := None |}.

(** The three parts every fees answer carries. *)
Definition fees_general (kb : knowledge_base) : str :=
  "Tuition Last Date: " ++ get (tuition_fee_last_date (fees kb)) "N/A"
  ++ " | Exam Fee Last Date: " ++ get (exam_fee_last_date (fees kb)) "N/A"
  ++ " | Payment via: " ++ get (payment_portal (fees kb)) "N/A".

(* ================================================================== *)
(** * Properties *)

(** ** [SequenceMatcher]: the index [b2j] *)

Lemma ascii_eqb_true (x y : ascii) : Ascii.eqb x y = true ↔ x = y.
Proof. apply Ascii.eqb_eq. Qed.

Lemma chain_from_get (b : str) :
  ∀ i (m : gmap ascii (list nat)) c,
    get (chain_from i b m !! c) [] = get (m !! c) [] ++ positions i c b.
Proof.
  induction b as [|x b IH]; intros i m c; simpl.
  - by rewrite app_nil_r.
  - rewrite IH. destruct (Ascii.eqb x c) eqn:E.
    + apply ascii_eqb_true in E as ->.
      rewrite lookup_insert_eq. simpl. by rewrite <- app_assoc.
    + rewrite lookup_insert_ne; [done|].
      intros ->. by rewrite Ascii.eqb_refl in E.
Qed.

Lemma positions_elem (b : str) :
  ∀ i c j, j ∈ positions i c b ↔ i ≤ j ∧ b !! (j - i) = Some c.
Proof.
  induction b as [|x b IH]; intros i c j; simpl.
  - split; [by intros ?%elem_of_nil | by intros [_ ?]].
  - rewrite elem_of_app, IH. destruct (Ascii.eqb x c) eqn:E.
    + apply ascii_eqb_true in E as ->. rewrite list_elem_of_singleton.
      split.
      * intros [->|[Hle Hj]].
        -- split; [lia|]. by replace (i - i) with 0 by lia.
        -- split; [lia|]. by replace (j - i) with (S (j - S i)) by lia.
      * intros [Hle Hj]. destruct (decide (j = i)) as [->|Hne]; [by left|].
        right. split; [lia|].
        by replace (j - i) with (S (j - S i)) in Hj by lia.
    + split.
      * intros [?%elem_of_nil|[Hle Hj]]; [done|]. split; [lia|].
        by replace (j - i) with (S (j - S i)) by lia.
      * intros [Hle Hj]. right.
        destruct (decide (j = i)) as [->|Hne].
        -- replace (i - i) with 0 in Hj by lia. simpl in Hj.
           injection Hj as ->. by rewrite Ascii.eqb_refl in E.
        -- split; [lia|].
           by replace (j - i) with (S (j - S i)) in Hj by lia.
Qed.

Lemma positions_sorted (b : str) :
  ∀ i c, StronglySorted lt (positions i c b).
Proof.
  induction b as [|x b IH]; intros i c; simpl; [constructor|].
  destruct (Ascii.eqb x c); simpl; [|apply IH].
  constructor; [apply IH|].
  apply Forall_forall. intros j Hj. apply positions_elem in Hj. lia.
Qed.

(** What [b2j.get(c, [])] is after [__chain_b]: nothing for a popular
    character, all the positions of [c] otherwise. *)
Lemma chain_b_get (b : str) (c : ascii) :
  get (chain_b b !! c) [] = [] ∨ get (chain_b b !! c) [] = positions 0 c b.
Proof.
  unfold chain_b.
  pose proof (chain_from_get b 0 ∅ c) as H.
  rewrite lookup_empty in H. simpl in H.
  destruct (200 <=? length b); [|by right].
  destruct (filter _ (chain_from 0 b ∅) !! c) as [js|] eqn:E; [|by left].
  apply map_lookup_filter_Some in E as [E _].
  rewrite E in H. simpl in *. by right.
Qed.

Lemma chain_b_sound (b : str) (c : ascii) (j : nat) :
  j ∈ get (chain_b b !! c) [] → b !! j = Some c.
Proof.
  destruct (chain_b_get b c) as [-> | ->].
  - by intros ?%elem_of_nil.
  - intros [_ H]%positions_elem. by replace (j - 0) with j in H by lia.
Qed.

(** ** [find_longest_match] returns a block of equal characters inside
    the region *)

Section find_longest_match_good.
Variables (a b : str) (b2j : gmap ascii (list nat)).
Hypothesis b2j_sound : ∀ c j, j ∈ get (b2j !! c) [] → b !! j = Some c.

Lemma scan_row_good alo blo bhi i c j2len :
  alo ≤ i → a !! i = Some c → row_ok a b alo blo bhi i j2len →
  ∀ js newj2len best,
    (∀ j, j ∈ js → b !! j = Some c) →
    row_ok a b alo blo bhi (S i) newj2len →
    good_block a b alo (S i) blo bhi best →
    row_ok a b alo blo bhi (S i) (scan_row blo bhi i j2len js newj2len best).1
    ∧ good_block a b alo (S i) blo bhi
        (scan_row blo bhi i j2len js newj2len best).2.
Proof.
  intros Hi Hc Hprev js.
  induction js as [|j js IH]; intros newj2len best Hjs Hnew Hbest; simpl.
  - done.
  - destruct (j <? blo) eqn:E1.
    { apply IH; [|done..]. intros j' ?. apply Hjs. by right. }
    destruct (bhi <=? j) eqn:E2; [done|].
    apply Nat.ltb_ge in E1. apply Nat.leb_gt in E2.
    assert (Hj : b !! j = Some c) by (apply Hjs; by left).
    set (k := j2lenget j2len j + 1).
assert (Hsame : same_at a b i j = true).
    { unfold same_at. rewrite Hc, Hj. apply Ascii.eqb_refl. }
    assert (Hk : 1 ≤ k ∧ alo + k ≤ S i ∧ blo + k ≤ j + 1 ∧ j < bhi
                 ∧ ∀ t, t < k → same_at a b (S i - 1 - t) (j - t) = true).
    { assert (Hget : j2lenget j2len j = 0
                     ∨ ∃ j' k', j = S j' ∧ j2len !! j' = Some k'
                                ∧ j2lenget j2len j = k').
      { unfold j2lenget. destruct j as [|j']; [by left|].
        destruct (j2len !! j') as [k'|] eqn:E; [|by left].
        right. by exists j', k'. }
      destruct Hget as [H0 | (j' & k' & -> & E & H0)]; unfold k; rewrite H0.
      - repeat split; try lia. intros t Ht.
        replace (S i - 1 - t) with i by lia.
        replace (j - t) with j by lia. done.
      - destruct (Hprev _ _ E) as (H1 & H2 & H3 & H4 & H5).
        repeat split; try lia. intros t Ht. destruct t as [|t].
        + replace (S i - 1 - 0) with i by lia.
          replace (S j' - 0) with (S j') by lia. done.
        + replace (S i - 1 - S t) with (i - 1 - t) by lia.
          replace (S j' - S t) with (j' - t) by lia.
          apply H5. lia. }
    apply IH.
    + intros j' ?. apply Hjs. by right.
    + intros j0 k0. rewrite lookup_insert.
      case_decide as Hd; [|by apply Hnew].
      intros [= <-]. by subst j0.
    + destruct (best.2 <? k) eqn:E3; [|done].
      destruct Hk as (H1 & H2 & H3 & H4 & H5).
      unfold good_block. repeat split; try lia.
      intros t Ht.
      replace (i + 1 - k + t) with (S i - 1 - (k - 1 - t)) by lia.
      replace (j + 1 - k + t) with (j - (k - 1 - t)) by lia.
      apply H5. lia.
Qed.

Lemma good_block_widen alo ahi ahi' blo bhi x :
  ahi ≤ ahi' → good_block a b alo ahi blo bhi x →
  good_block a b alo ahi' blo bhi x.
Proof.
  destruct x as [[i j] k]. unfold good_block.
  intros ? (?&?&?&?&?). repeat split; try lia. done.
Qed.

Lemma scan_rows_good alo blo bhi :
  ∀ n i j2len best,
    alo ≤ i → row_ok a b alo blo bhi i j2len →
    good_block a b alo i blo bhi best →
    good_block a b alo (i + n) blo bhi
      (scan_rows a b2j blo bhi (seq i n) j2len best).
Proof.
  induction n as [|n IH]; intros i j2len best Hi Hrow Hbest; simpl.
  - by replace (i + 0) with i by lia.
  - unfold candidates. destruct (a !! i) as [c|] eqn:Hc.
    + pose proof (scan_row_good alo blo bhi i c j2len Hi Hc Hrow
                    (get (b2j !! c) []) ∅ best) as H.
      destruct (scan_row blo bhi i j2len (get (b2j !! c) []) ∅ best)
        as [newj2len best'] eqn:E.
      simpl in H. destruct H as [H1 H2].
      * intros j. apply b2j_sound.
      * intros j k. by rewrite lookup_empty.
      * by apply (good_block_widen alo i (S i)); [lia|].
      * replace (i + S n) with (S i + n) by lia. apply IH; [lia|done..].
    + simpl. replace (i + S n) with (S i + n) by lia.
      apply IH; [lia| |].
      * intros j k. by rewrite lookup_empty.
      * by apply (good_block_widen alo i (S i)); [lia|].
Qed.

Lemma extend_left_good junk alo ahi blo bhi :
  ∀ besti bestj bestsize,
    good_block a b alo ahi blo bhi (besti, bestj, bestsize) →
    good_block a b alo ahi blo bhi
      (extend_left a b junk alo blo besti bestj bestsize).
Proof.
  induction besti as [|i' IH]; intros bestj bestsize Hg; simpl; [done|].
  destruct (_ && _) eqn:E; [|done].
  apply andb_true_iff in E as [E E4].
  apply andb_true_iff in E as [E E3].
  apply andb_true_iff in E as [E1 E2].
  apply Nat.ltb_lt in E1, E2.
  apply IH. destruct Hg as (?&?&?&?&Hg).
  unfold good_block. repeat split; try lia.
  intros t Ht. destruct t as [|t].
  - by replace (i' + 0) with i' by lia; replace (bestj - 1 + 0) with (bestj - 1) by lia.
  - replace (i' + S t) with (S i' + t) by lia.
    replace (bestj - 1 + S t) with (bestj + t) by lia.
    apply Hg. lia.
Qed.

Lemma extend_right_good junk alo ahi blo bhi besti bestj :
  ∀ room bestsize,
    besti + bestsize + room ≤ ahi →
    good_block a b alo ahi blo bhi (besti, bestj, bestsize) →
    good_block a b alo ahi blo bhi
      (besti, bestj, extend_right a b junk room bhi besti bestj bestsize).
Proof.
  induction room as [|room IH]; intros bestsize Hroom Hg; simpl; [done|].
  destruct (_ && _) eqn:E; [|done].
  apply andb_true_iff in E as [E E3].
  apply andb_true_iff in E as [E1 E2].
  apply Nat.ltb_lt in E1.
  apply IH; [lia|]. destruct Hg as (?&?&?&?&Hg).
  unfold good_block. repeat split; try lia.
  intros t Ht. destruct (decide (t = bestsize)) as [->|]; [done|].
  apply Hg. lia.
Qed.

Lemma find_longest_match_good alo ahi blo bhi :
  alo ≤ ahi → blo ≤ bhi →
  good_block a b alo ahi blo bhi (find_longest_match a b b2j alo ahi blo bhi).
Proof.
  intros Ha Hb. unfold find_longest_match.
  pose proof (scan_rows_good alo blo bhi (ahi - alo) alo ∅ (alo, blo, 0)) as H0.
  destruct (scan_rows _ _ _ _ _ _ _) as [[i0 j0] k0].
  replace (alo + (ahi - alo)) with ahi in H0 by lia.
  assert (G0 : good_block a b alo ahi blo bhi (i0, j0, k0)).
  { apply H0; [lia| |].
    - intros j k. by rewrite lookup_empty.
    - unfold good_block. repeat split; try lia. }
  pose proof (extend_left_good false alo ahi blo bhi _ _ _ G0) as G1.
  destruct (extend_left a b false alo blo i0 j0 k0) as [[i1 j1] k1].
  pose proof (extend_right_good false alo ahi blo bhi i1 j1
                (ahi - (i1 + k1)) k1) as G2.
  set (k2 := extend_right a b false (ahi - (i1 + k1)) bhi i1 j1 k1) in *.
  assert (G2' : good_block a b alo ahi blo bhi (i1, j1, k2)).
  { apply G2; [|done]. destruct G1 as (?&?&_). lia. }
  pose proof (extend_left_good true alo ahi blo bhi _ _ _ G2') as G3.
  destruct (extend_left a b true alo blo i1 j1 k2) as [[i3 j3] k3].
  apply extend_right_good; [|done]. destruct G3 as (?&?&_). lia.
Qed.
End find_longest_match_good.

(** ** [get_matching_blocks] terminates, and its blocks fit in both
    strings *)

Lemma same_at_eq (a b : str) (x y : nat) :
  same_at a b x y = true → a !! x = b !! y.
Proof.
  unfold same_at. destruct (a !! x), (b !! y); try done.
  by intros ->%ascii_eqb_true.
Qed.

Section blocks_loop_spec.
Variables (a b : str) (b2j : gmap ascii (list nat)).
Hypothesis b2j_sound : ∀ c j, j ∈ get (b2j !! c) [] → b !! j = Some c.

Lemma region_ok_zero r : region_wf r → region_ok a b r 0.
Proof.
  destruct r as [[[alo ahi] blo] bhi]. intros _.
  unfold region_ok. repeat split; try lia.
Qed.

Lemma region_ok_split alo ahi blo bhi i j k mL mR :
  good_block a b alo ahi blo bhi (i, j, k) →
  region_ok a b (alo, i, blo, j) mL →
  region_ok a b (i + k, ahi, j + k, bhi) mR →
  region_ok a b (alo, ahi, blo, bhi) (k + mL + mR).
Proof.
  intros (H1 & H2 & H3 & H4 & H5) (L1 & L2 & L3) (R1 & R2 & R3).
  unfold region_ok. repeat split; try lia.
  intros Ea Eb t Ht.
  assert (mL = i - alo) as EL1 by lia.
  assert (mL = j - blo) as EL2 by lia.
  assert (mR = ahi - (i + k)) as ER1 by lia.
  assert (mR = bhi - (j + k)) as ER2 by lia.
  destruct (decide (t < mL)) as [Hl|Hl]; [by apply L3|].
  destruct (decide (t < mL + k)) as [Hm|Hm].
  - replace (alo + t) with (i + (t - mL)) by lia.
    replace (blo + t) with (j + (t - mL)) by lia.
    apply same_at_eq, H5. lia.
  - replace (alo + t) with (i + k + (t - mL - k)) by lia.
    replace (blo + t) with (j + k + (t - mL - k)) by lia.
    apply R3; [done..|lia].
Qed.

Lemma Forall2_pushed (cond : bool) r queue ms :
  region_wf r →
  Forall2 (region_ok a b) (if cond then r :: queue else queue) ms →
  ∃ m ms', sum_list ms = m + sum_list ms' ∧ region_ok a b r m
           ∧ Forall2 (region_ok a b) queue ms'.
Proof.
  intros Hwf H. destruct cond.
  - apply Forall2_cons_inv_l in H as (m & ms' & ? & ? & ->).
    by exists m, ms'.
  - exists 0, ms. split; [done|]. split; [by apply region_ok_zero|done].
Qed.

Lemma queue_cost_pushed (cond : bool) r queue :
  queue_cost (if cond then r :: queue else queue)
  ≤ queue_cost [r] + queue_cost queue.
Proof.
  destruct cond; destruct r as [[[alo ahi] blo] bhi]; simpl; lia.
Qed.

Lemma Forall_pushed (cond : bool) r queue :
  region_wf r → Forall region_wf queue →
  Forall region_wf (if cond then r :: queue else queue).
Proof. destruct cond; [by constructor|done]. Qed.

Lemma blocks_loop_spec :
  ∀ fuel queue acc,
    Forall region_wf queue → queue_cost queue ≤ fuel →
    ∃ blocks ms,
      blocks_loop a b b2j fuel queue acc = Some (acc ++ blocks)
      ∧ matches_of blocks = sum_list ms
      ∧ Forall2 (region_ok a b) queue ms.
Proof.
  induction fuel as [|fuel IH]; intros queue acc Hwf Hcost.
  - destruct queue as [|[[[alo ahi] blo] bhi] queue]; simpl in *; [|lia].
    exists [], []. by rewrite app_nil_r.
  - destruct queue as [|[[[alo ahi] blo] bhi] queue]; simpl in *.
    { exists [], []. by rewrite app_nil_r. }
    apply Forall_cons in Hwf as [[Ha Hb] Hwf].
    pose proof (find_longest_match_good a b b2j b2j_sound alo ahi blo bhi Ha Hb)
      as Hgood.
    destruct (find_longest_match a b b2j alo ahi blo bhi) as [[i j] k].
    destruct (k =? 0) eqn:Ek.
    + apply Nat.eqb_eq in Ek as ->.
      destruct (IH queue acc Hwf) as (blocks & ms & E1 & E2 & E3); [lia|].
      exists blocks, (0 :: ms). repeat split; try done.
      constructor; [|done]. by apply (region_ok_zero (alo, ahi, blo, bhi)).
    + apply Nat.eqb_neq in Ek.
      pose proof Hgood as (G1 & G2 & G3 & G4 & _).
      set (left := (alo, i, blo, j)).
      set (right := (i + k, ahi, j + k, bhi)).
      set (q1 := if (alo <? i) && (blo <? j) then left :: queue else queue).
      set (q2 := if (i + k <? ahi) && (j + k <? bhi) then right :: q1 else q1).
      assert (Hl : region_wf left) by (unfold left; simpl; lia).
      assert (Hr : region_wf right) by (unfold right; simpl; lia).
      destruct (IH q2 (acc ++ [(i, j, k)])) as (blocks & ms & E1 & E2 & E3).
      { unfold q2, q1. by repeat apply Forall_pushed. }
      { assert (queue_cost q2 ≤ queue_cost [right] + queue_cost q1)
          by apply queue_cost_pushed.
        assert (queue_cost q1 ≤ queue_cost [left] + queue_cost queue)
          by apply queue_cost_pushed.
        unfold left, right in *. simpl in *. lia. }
      apply Forall2_pushed in E3 as (mR & ms1 & S1 & OR & E3); [|done].
      apply Forall2_pushed in E3 as (mL & ms0 & S0 & OL & E3); [|done].
      exists ((i, j, k) :: blocks), ((k + mL + mR) :: ms0).
      split; [by rewrite E1, <- app_assoc|].
      split; [simpl; lia|].
      constructor; [|done].
      by apply (region_ok_split alo ahi blo bhi i j k mL mR).
Qed.
End blocks_loop_spec.

(** [get_matching_blocks] always returns: the iteration bound of the
    embedding is never reached. *)
Lemma get_matching_blocks_total (a b : str) :
  ∃ blocks,
    get_matching_blocks a b = Some blocks
    ∧ region_ok a b (0, length a, 0, length b) (matches_of blocks).
Proof.
  unfold get_matching_blocks.
  destruct (blocks_loop_spec a b (chain_b b) (chain_b_sound b)
              (2 * length a + 1) [(0, length a, 0, length b)] [])
    as (blocks & ms & E1 & E2 & E3).
  - constructor; [|done]. simpl. lia.
  - simpl. lia.
  - apply Forall2_cons_inv_l in E3 as (m & ms' & Hm & ->%Forall2_nil_inv_l & ->).
    exists blocks. split; [done|].
    rewrite E2. simpl. by rewrite Nat.add_0_r.
Qed.

Lemma Zpos_of_nat_S (n : nat) : Z.pos (Pos.of_nat (S n)) = Z.of_nat (S n).
Proof. by rewrite <- positive_nat_Z, Nat2Pos.id. Qed.

Lemma calculate_ratio_range (m len : nat) :
  2 * m ≤ len → (0 <= calculate_ratio m len)%Q ∧ (calculate_ratio m len <= 1)%Q.
Proof.
  intros H. unfold calculate_ratio. destruct len as [|len]; [done|].
  unfold Qle. cbn [Qnum Qden]. rewrite Zpos_of_nat_S. lia.
Qed.

Lemma calculate_ratio_one (m len : nat) :
  2 * m ≤ len → (calculate_ratio m len == 1)%Q ↔ 2 * m = len.
Proof.
  intros H. unfold calculate_ratio. destruct len as [|len].
  - split; [lia|done].
  - unfold Qeq. cbn [Qnum Qden]. rewrite Zpos_of_nat_S. lia.
Qed.

Lemma similarity_range (a b : str) :
  (0 <= similarity a b)%Q ∧ (similarity a b <= 1)%Q.
Proof.
  unfold similarity, ratio.
  destruct (get_matching_blocks_total a b) as (blocks & -> & H1 & H2 & _).
  apply calculate_ratio_range. lia.
Qed.

(** Only equal strings score 1. *)
Lemma similarity_one_inv (a b : str) :
  (similarity a b == 1)%Q → a = b.
Proof.
  unfold similarity, ratio.
  destruct (get_matching_blocks_total a b) as (blocks & -> & H1 & H2 & H3).
  intros E. apply calculate_ratio_one in E; [|lia].
  apply list_eq_same_length with (length a); [lia|lia|].
  intros t x y Ht Hx Hy.
  specialize (H3 ltac:(lia) ltac:(lia) t ltac:(lia)).
  change (0 + t) with t in H3.
  rewrite Hx, Hy in H3. by injection H3.
Qed.

(** ** A string matched with itself is one block *)

Section self_match.
Variables (s : str) (b2j : gmap ascii (list nat)).
Hypothesis Hcand : ∀ i, candidates s b2j i ≠ [] →
  i ∈ candidates s b2j i
  ∧ StronglySorted lt (candidates s b2j i)
  ∧ ∀ j, j ∈ candidates s b2j i → j < length s ∧ candidates s b2j j ≠ [].

Lemma run_le i : run s b2j i ≤ i.
Proof.
  induction i as [|i IH]; simpl; [done|].
  destruct (candidates s b2j i); lia.
Qed.

Lemma run_S i :
  candidates s b2j i ≠ [] → run s b2j (S i) = S (run s b2j i).
Proof. simpl. by destruct (candidates s b2j i). Qed.

Lemma run_S_nil i : candidates s b2j i = [] → run s b2j (S i) = 0.
Proof. simpl. by intros ->. Qed.

Lemma j2lenget_le (j2len : gmap nat nat) i j :
  (∀ j k, j2len !! j = Some k → k ≤ run s b2j (S j) ∧ k ≤ run s b2j i) →
  j2lenget j2len j ≤ run s b2j j ∧ j2lenget j2len j ≤ run s b2j i.
Proof.
  intros HA. destruct j as [|j']; simpl; [lia|].
  destruct (j2len !! j') as [k'|] eqn:E; simpl; [|lia].
  apply HA in E. simpl in E. lia.
Qed.

Lemma j2lenget_diag (j2len : gmap nat nat) i :
  (∀ j k, j2len !! j = Some k → k ≤ run s b2j (S j) ∧ k ≤ run s b2j i) →
  (∀ i', i = S i' → candidates s b2j i' ≠ [] →
     j2len !! i' = Some (run s b2j i)) →
  j2lenget j2len i = run s b2j i.
Proof.
  intros HA HB. destruct i as [|i']; [done|].
  unfold j2lenget.
  destruct (decide (candidates s b2j i' = [])) as [Hn|Hn].
  - rewrite (run_S_nil _ Hn).
    destruct (j2len !! i') as [k'|] eqn:E; simpl; [|done].
    apply HA in E. rewrite (run_S_nil _ Hn) in E. lia.
  - by rewrite (HB i' eq_refl Hn).
Qed.

Lemma scan_row_diag i (j2len : gmap nat nat) :
  (∀ j k, j2len !! j = Some k → k ≤ run s b2j (S j) ∧ k ≤ run s b2j i) →
  (∀ i', i = S i' → candidates s b2j i' ≠ [] →
     j2len !! i' = Some (run s b2j i)) →
  candidates s b2j i ≠ [] →
  ∀ js (newj2len : gmap nat nat) (best : block),
    (∀ j, j ∈ js → j < length s ∧ candidates s b2j j ≠ []) →
    StronglySorted lt js →
    (∀ j k, newj2len !! j = Some k →
       k ≤ run s b2j (S j) ∧ k ≤ run s b2j (S i)) →
    (i ∈ js ∨ (newj2len !! i = Some (run s b2j (S i))
               ∧ run s b2j (S i) ≤ best.2)) →
    best.1.1 = best.1.2 → best.1.1 + best.2 ≤ S i →
    (∀ i', i' ≤ i → run s b2j i' ≤ best.2) →
    diag_state s b2j (S i)
      (scan_row 0 (length s) i j2len js newj2len best).1
      (scan_row 0 (length s) i j2len js newj2len best).2.
Proof.
  intros HA HB Hi js.
  induction js as [|j js IH];
    intros newj2len best Hjs Hsort HNA HNB HC1 HC2 HD; simpl.
  - destruct HNB as [?%elem_of_nil | [HB1 HB2]]; [done|].
    split; [done|]. split; [by intros i' [= <-] _|].
    split; [done|]. split; [done|].
    intros i' Hi'. destruct (decide (i' = S i)) as [->|]; [done|].
    apply HD. lia.
  - destruct (Hjs j) as [Hjn Hjc]; [by left|].
    apply StronglySorted_inv in Hsort as [Hsort Hall].
    destruct (j <? 0) eqn:E1; [apply Nat.ltb_lt in E1; lia|clear E1].
    destruct (length s <=? j) eqn:E2; [apply Nat.leb_le in E2; lia|clear E2].
    destruct (j2lenget_le j2len i j HA) as [K1 K2].
    set (k := j2lenget j2len j + 1) in *.
    assert (Hk1 : k ≤ run s b2j (S j)) by (rewrite (run_S _ Hjc); lia).
    assert (Hk2 : k ≤ run s b2j (S i)) by (rewrite (run_S _ Hi); lia).
    assert (Hoff : j ≠ i → k ≤ best.2).
    { intros Hne. destruct (decide (j < i)) as [Hlt|Hge].
      - specialize (HD (S j) ltac:(lia)). lia.
      - destruct HNB as [Hin | [_ ?]]; [|lia].
        apply elem_of_cons in Hin as [->|Hin]; [done|].
        rewrite Forall_forall in Hall. specialize (Hall _ Hin). lia. }
    apply IH; clear IH.
    + intros j' ?. apply Hjs. by right.
    + done.
    + intros j0 k0. rewrite lookup_insert.
      case_decide as Hd; [|by apply HNA].
      intros [= <-]. by subst j0.
    + destruct (decide (j = i)) as [->|Hne].
      * right. rewrite lookup_insert_eq.
        assert (k = run s b2j (S i)) as Hki.
        { unfold k. rewrite (j2lenget_diag j2len i HA HB), (run_S _ Hi). lia. }
        split; [by rewrite Hki|].
        destruct (best.2 <? k) eqn:E3; cbn [fst snd]; [lia|].
        apply Nat.ltb_ge in E3. lia.
      * destruct (best.2 <? k) eqn:E3;
          [apply Nat.ltb_lt in E3; specialize (Hoff Hne); lia|].
        destruct HNB as [Hin | [HB1 HB2]].
        -- apply elem_of_cons in Hin as [->|Hin]; [done|by left].
        -- right. by rewrite lookup_insert_ne.
    + destruct (best.2 <? k) eqn:E3; [|done]. cbn [fst snd].
      apply Nat.ltb_lt in E3.
      destruct (decide (j = i)) as [->|Hne]; [done|].
      specialize (Hoff Hne). lia.
    + destruct (best.2 <? k) eqn:E3; [|done]. cbn [fst snd].
      apply Nat.ltb_lt in E3.
      destruct (decide (j = i)) as [->|Hne].
      * pose proof (run_le (S i)). lia.
      * specialize (Hoff Hne). lia.
    + intros i' Hi'. specialize (HD i' Hi').
      destruct (best.2 <? k) eqn:E3; [|done]. cbn [fst snd].
      apply Nat.ltb_lt in E3. lia.
Qed.

Lemma scan_rows_diag :
  ∀ m i (j2len : gmap nat nat) (best : block),
    diag_state s b2j i j2len best →
    (scan_rows s b2j 0 (length s) (seq i m) j2len best).1.1
    = (scan_rows s b2j 0 (length s) (seq i m) j2len best).1.2
    ∧ (scan_rows s b2j 0 (length s) (seq i m) j2len best).1.1
      + (scan_rows s b2j 0 (length s) (seq i m) j2len best).2 ≤ i + m.
Proof.
  induction m as [|m IH]; intros i j2len best (HA & HB & HC1 & HC2 & HD);
    simpl.
  - split; [done|lia].
  - destruct (decide (candidates s b2j i = [])) as [Hn|Hn].
    + rewrite Hn. simpl.
      replace (i + S m) with (S i + m) by lia. apply IH.
      split; [intros j k; by rewrite lookup_empty|].
      split; [by intros ? [= <-] ?|].
      split; [done|]. split; [lia|].
      intros i' Hi'. destruct (decide (i' = S i)) as [->|].
      * rewrite (run_S_nil _ Hn). lia.
      * apply HD. lia.
    + destruct (Hcand i Hn) as (H1 & H2 & H3).
      pose proof (scan_row_diag i j2len HA HB Hn (candidates s b2j i) ∅ best
                    H3 H2) as H.
      destruct (scan_row 0 (length s) i j2len (candidates s b2j i) ∅ best)
        as [newj2len best'].
      replace (i + S m) with (S i + m) by lia. apply IH.
      apply H.
      * intros j k. by rewrite lookup_empty.
      * by left.
      * done.
      * lia.
      * done.
Qed.

Lemma same_at_self i : i < length s → same_at s s i i = true.
Proof.
  intros Hi. unfold same_at.
  destruct (lookup_lt_is_Some_2 s i Hi) as [c ->]. apply Ascii.eqb_refl.
Qed.

Lemma extend_left_self :
  ∀ d k, d + k ≤ length s →
    extend_left s s false 0 0 d d k = (0, 0, d + k).
Proof.
  induction d as [|d IH]; intros k Hk; simpl; [done|].
  replace (d - 0) with d by lia.
  rewrite same_at_self by lia.
  unfold junk_at. destruct (s !! d); simpl.
  - rewrite IH by lia. f_equal. lia.
  - rewrite IH by lia. f_equal. lia.
Qed.

Lemma extend_right_self :
  ∀ room k, k + room = length s →
    extend_right s s false room (length s) 0 0 k = length s.
Proof.
  induction room as [|room IH]; intros k Hk; simpl; [lia|].
  destruct (k <? length s) eqn:E; [|apply Nat.ltb_ge in E; lia].
  rewrite same_at_self by lia.
  unfold junk_at. destruct (s !! k); simpl; apply IH; lia.
Qed.

Lemma find_longest_match_self :
  find_longest_match s s b2j 0 (length s) 0 (length s) = (0, 0, length s).
Proof.
  unfold find_longest_match.
  pose proof (scan_rows_diag (length s - 0) 0 ∅ (0, 0, 0)) as H.
  destruct (scan_rows s b2j 0 (length s) (seq 0 (length s - 0)) ∅ (0, 0, 0))
    as [[d d'] k].
  simpl in H. destruct H as [<- Hk].
  { split; [intros j k0; by rewrite lookup_empty|].
    split; [done|]. split; [done|]. split; [done|].
    intros i' Hi'. by replace i' with 0 by lia. }
  rewrite extend_left_self by lia.
  rewrite extend_right_self by lia.
  simpl. by replace (length s - length s) with 0 by lia.
Qed.
End self_match.

Lemma chain_b_candidates (s : str) (i : nat) :
  candidates s (chain_b s) i ≠ [] →
  i ∈ candidates s (chain_b s) i
  ∧ StronglySorted lt (candidates s (chain_b s) i)
  ∧ ∀ j, j ∈ candidates s (chain_b s) i →
         j < length s ∧ candidates s (chain_b s) j ≠ [].
Proof.
  unfold candidates at 1 2 3 4. destruct (s !! i) as [c|] eqn:Hc; [|done].
  intros Hne. destruct (chain_b_get s c) as [E|E]; [done|].
  rewrite E in *. split; [|split].
  - apply positions_elem. split; [lia|]. by replace (i - 0) with i by lia.
  - apply positions_sorted.
  - intros j [_ Hj]%positions_elem. replace (j - 0) with j in Hj by lia.
    split; [by eapply lookup_lt_Some|].
    unfold candidates. by rewrite Hj, E.
Qed.

Lemma similarity_refl (s : str) : (similarity s s == 1)%Q.
Proof.
  unfold similarity, ratio, get_matching_blocks.
  replace (2 * length s + 1) with (S (2 * length s)) by lia.
  cbn [blocks_loop].
  rewrite (find_longest_match_self s (chain_b s) (chain_b_candidates s)).
  destruct (length s) as [|n] eqn:E; simpl.
  - done.
  - rewrite !Nat.ltb_irrefl. simpl.
    unfold Qeq. cbn [Qnum Qden]. rewrite Zpos_of_nat_S. lia.
Qed.

(** ** Scores and thresholds *)

Lemma Qgtb_true (x y : Q) : Qgtb x y = true ↔ (y < x)%Q.
Proof.
  unfold Qgtb. rewrite negb_true_iff, <- not_true_iff_false, Qle_bool_iff.
  split; [apply Qnot_le_lt | apply Qlt_not_le].
Qed.

Lemma Qgtb_false (x y : Q) : Qgtb x y = false ↔ (x <= y)%Q.
Proof.
  unfold Qgtb. rewrite negb_false_iff. apply Qle_bool_iff.
Qed.

Lemma similarity_lt_one (a b : str) : a ≠ b → (similarity a b < 1)%Q.
Proof.
  intros Hne. destruct (similarity_range a b) as [_ Hle].
  apply Qle_lteq in Hle as [Hlt|Heq]; [done|].
  by apply similarity_one_inv in Heq.
Qed.

(** C4, as amended: the score is a number between 0 and 1, and every
    string scores 1 against itself. *)
Theorem similarity_range_and_reflexive :
  (∀ a b : str, (0 <= similarity a b)%Q ∧ (similarity a b <= 1)%Q)
  ∧ (∀ s : str, (similarity s s == 1)%Q).
Proof. split; [apply similarity_range | apply similarity_refl]. Qed.

(** C4, the counterexample: the score depends on the order of the two
    strings, 0.25 for ("tide", "diet") and 0.5 for ("diet", "tide"). *)
Lemma similarity_not_symmetric :
  similarity "tide" "diet" = (2 # 8)%Q
  ∧ similarity "diet" "tide" = (4 # 8)%Q
  ∧ ¬ (similarity "tide" "diet" == similarity "diet" "tide")%Q.
Proof.
  split; [by vm_compute|]. split; [by vm_compute|].
  by vm_compute.
Qed.

(** ** The scoring loop of the finders *)

Section scoring_facts.
Context {A : Type} (keys : A -> list str) (q : str).

Lemma best_match_flat (candidates : list A) :
  ∀ st,
    foldl (score_candidate keys q) st candidates
    = foldl (fun st p => score_key q p.1 st p.2) st
        (scored_pairs keys candidates).
Proof.
  induction candidates as [|x xs IH]; intros st; [done|].
  unfold scored_pairs in *. simpl. rewrite foldl_app, <- IH.
  f_equal. unfold score_candidate.
  generalize (keys x). intros ks. revert st.
  induction ks as [|k ks IHk]; intros st; [done|]. simpl. apply IHk.
Qed.

Lemma scored_pairs_elem (candidates : list A) x key :
  (x, key) ∈ scored_pairs keys candidates ↔ x ∈ candidates ∧ key ∈ keys x.
Proof.
  unfold scored_pairs. rewrite list_elem_of_bind. split.
  - intros (y & Hin & Hy). apply list_elem_of_fmap in Hin as (k & [= -> ->] & Hk).
    done.
  - intros [Hx Hk]. exists x. split; [|done].
    apply list_elem_of_fmap. by exists key.
Qed.

Lemma score_pairs_scored :
  ∀ (ps seen : list (A * str)) (st : option A * Q),
    scored q seen st →
    scored q (seen ++ ps)
      (foldl (fun st p => score_key q p.1 st p.2) st ps).
Proof.
  induction ps as [|[x key] ps IH]; intros seen st Hst; simpl.
  - by rewrite app_nil_r.
  - replace (seen ++ (x, key) :: ps) with ((seen ++ [(x, key)]) ++ ps)
      by (by rewrite <- app_assoc).
    apply IH. destruct Hst as (H1 & H2 & H3 & H4).
    unfold score_key. destruct (Qgtb _ _) eqn:E; simpl.
    + apply Qgtb_true in E. split; [|split; [|split]]; simpl.
      * eapply Qle_trans; [exact H1|by apply Qlt_le_weak].
      * intros x' key' [Hin|Hin%list_elem_of_singleton]%elem_of_app.
        -- eapply Qle_trans; [by eapply H2|by apply Qlt_le_weak].
        -- injection Hin as -> ->. apply Qle_refl.
      * done.
      * intros y [= <-]. exists key. split; [|done].
        apply elem_of_app. right. by left.
    + apply Qgtb_false in E. split; [|split; [|split]]; simpl.
      * done.
      * intros x' key' [Hin|Hin%list_elem_of_singleton]%elem_of_app.
        -- by eapply H2.
        -- by injection Hin as -> ->.
      * done.
      * intros y Hy. destruct (H4 y Hy) as (k & Hk & ?).
        exists k. split; [|done]. apply elem_of_app. by left.
Qed.

Lemma best_match_scored (candidates : list A) :
  scored q (scored_pairs keys candidates) (best_match keys q candidates).
Proof.
  unfold best_match. rewrite best_match_flat.
  apply (score_pairs_scored _ []).
  split; [done|]. split; [by intros ? ? ?%elem_of_nil|].
  split; [done|]. by intros.
Qed.

(** The similarity phase: [accept] after [best_match]. *)
Lemma accept_best_match (threshold : Q) (candidates : list A) :
  (0 <= threshold)%Q →
  finder_spec keys threshold q candidates
    (accept threshold (best_match keys q candidates)).
Proof.
  intros Hthr. pose proof (best_match_scored candidates) as (H1 & H2 & H3 & H4).
  unfold accept. destruct (Qgtb _ _) eqn:E.
  - apply Qgtb_true in E.
    destruct (best_match keys q candidates).1 as [x|] eqn:Ex.
    + destruct (H4 x eq_refl) as (key & Hin & Hsc).
      apply scored_pairs_elem in Hin as [Hx Hkey].
      split; [done|]. exists key. split; [done|].
      rewrite <- Hsc. split; [done|].
      intros x' key' Hx' Hkey'. apply (H2 x'), scored_pairs_elem. done.
    + rewrite (H3 eq_refl) in E.
      exfalso. eapply Qlt_not_le; [exact E|exact Hthr].
  - apply Qgtb_false in E. simpl.
    intros x' key' Hx' Hkey'.
    eapply Qle_trans; [|exact E]. apply (H2 x'), scored_pairs_elem. done.
Qed.

(** Once the best score is 1 the loop changes nothing. *)
Lemma score_pairs_stay :
  ∀ (ps : list (A * str)) st,
    (1 <= st.2)%Q →
    foldl (fun st p => score_key q p.1 st p.2) st ps = st.
Proof.
  induction ps as [|[x key] ps IH]; intros st Hst; simpl; [done|].
  unfold score_key at 2. simpl.
  destruct (Qgtb _ _) eqn:E; [|by apply IH].
  apply Qgtb_true in E. exfalso.
  destruct (similarity_range q key) as [_ Hle].
  apply (Qlt_irrefl 1%Q).
  eapply Qle_lt_trans; [exact Hst|]. eapply Qlt_le_trans; [exact E|done].
Qed.

(** Pairs that score below 1 leave the best score below 1. *)
Lemma score_pairs_below :
  ∀ (ps : list (A * str)) st,
    (st.2 < 1)%Q →
    Forall (fun p => q ≠ p.2) ps →
    ((foldl (fun st p => score_key q p.1 st p.2) st ps).2 < 1)%Q.
Proof.
  induction ps as [|[x key] ps IH]; intros st Hst Hall; simpl; [done|].
  apply Forall_cons in Hall as [Hne Hall]. apply IH; [|done].
  unfold score_key. destruct (Qgtb _ _); simpl; [|done].
  by apply similarity_lt_one.
Qed.

(** The first candidate whose key is the query itself wins. *)
Lemma best_match_first_exact (pre post : list A) (x : A) :
  keys x = [q] →
  Forall (fun p => q ≠ p.2) (scored_pairs keys pre) →
  (best_match keys q (pre ++ x :: post)).1 = Some x
  ∧ ((best_match keys q (pre ++ x :: post)).2 == 1)%Q.
Proof.
  intros Hx Hpre. unfold best_match.
  rewrite best_match_flat. unfold scored_pairs.
  rewrite bind_app, foldl_app. simpl. rewrite foldl_app, Hx. simpl.
  fold (scored_pairs keys pre). fold (scored_pairs keys post).
  pose proof (score_pairs_below (scored_pairs keys pre) (None, 0%Q)
                ltac:(done) Hpre) as Hlt.
  set (st := foldl _ (None, 0%Q) (scored_pairs keys pre)) in *.
  assert (E : score_key q x st q = (Some x, similarity q q)).
  { unfold score_key. destruct (Qgtb _ _) eqn:E; [done|].
    apply Qgtb_false in E. exfalso.
    apply (Qlt_irrefl 1%Q). eapply Qle_lt_trans; [|exact Hlt].
    eapply Qle_trans; [|exact E].
    apply Qle_lteq. right. symmetry. apply similarity_refl. }
  rewrite E, score_pairs_stay; simpl.
  - split; [done|apply similarity_refl].
  - apply Qle_lteq. right. symmetry. apply similarity_refl.
Qed.
End scoring_facts.

(** ** The router, one block at a time *)

Lemma route_cons (kb : knowledge_base) (i : intent) (chain : list intent)
    (q : str) :
  route kb (i :: chain) q
  = if gate kb i q then
      match handler kb i q with
      | Some r => r
      | None => route kb chain q
      end
    else route kb chain q.
Proof. done. Qed.

Lemma route_answer (kb : knowledge_base) (i : intent) (chain : list intent)
    (q : str) (r : result str) :
  gate kb i q = true → handler kb i q = Some r → route kb (i :: chain) q = r.
Proof. intros Hg Hh. by rewrite route_cons, Hg, Hh. Qed.

Lemma route_skip (kb : knowledge_base) (i : intent) (chain : list intent)
    (q : str) :
  (gate kb i q = true → handler kb i q = None) →
  route kb (i :: chain) q = route kb chain q.
Proof.
  intros H. rewrite route_cons. destruct (gate kb i q); [|done].
  by rewrite H.
Qed.

Lemma route_skip_all (kb : knowledge_base) (q : str) (pre chain : list intent) :
  Forall (fun i => gate kb i q = true → handler kb i q = None) pre →
  route kb (pre ++ chain) q = route kb chain q.
Proof.
  induction 1 as [|i pre Hi _ IH]; [done|].
  simpl app. by rewrite route_skip.
Qed.

(** ** Direct Q&A *)

Lemma find_semantic_qna_exact (kb : knowledge_base) (q s : str)
    (pre post : list qna) (e : qna) :
  SEM_QNA kb = pre ++ e :: post →
  qa_question e = Some s →
  lower s = q →
  Forall (fun e' => lower (get (qa_question e') "") ≠ q) pre →
  find_semantic_qna kb q = Some e.
Proof.
  intros Hbank Hq Hs Hpre. unfold find_semantic_qna, accept. rewrite Hbank.
  destruct (best_match_first_exact qa_keys q pre post e) as [H1 H2].
  - unfold qa_keys. by rewrite Hq, <- Hs.
  - apply Forall_forall. intros [x key] [Hx Hkey]%scored_pairs_elem.
    unfold qa_keys in Hkey. apply list_elem_of_singleton in Hkey as ->.
    rewrite Forall_forall in Hpre. simpl. intros E. by apply (Hpre x).
  - assert (E : Qgtb (best_match qa_keys q (pre ++ e :: post)).2 (7 # 10) = true).
    { apply Qgtb_true. rewrite H2. done. }
    by rewrite E.
Qed.

(** C1, as amended: [find_semantic_qna] compares the normal form of the
    query with the lower-cased question of each entry (a missing
    question read as the empty string), not with the question as it is
    written.  If [e] is the first entry of the bank whose lower-cased
    question is the normal form of the query, and [e] has a question,
    the answer is the one of [e], whatever keyword lists the query
    matches: the direct Q&A block is the first of the chain.  An entry
    without an [answer] key gives the placeholder of
    [qa.get("answer", ...)]. *)
Theorem direct_qna_override (kb : knowledge_base) (query s : str)
    (pre post : list qna) (e : qna) :
  SEM_QNA kb = pre ++ e :: post →
  qa_question e = Some s →
  lower s = normalize_text query →
  Forall (fun e' => lower (get (qa_question e') "") ≠ normalize_text query)
    pre →
  answer_query kb query = Ok (get (qa_answer e) "Information not available.").
Proof.
  intros Hbank Hq Hs Hpre.
  pose proof (find_semantic_qna_exact kb _ s pre post e Hbank Hq Hs Hpre)
    as Hfind.
  unfold answer_query, intent_chain. apply route_answer.
  - simpl. rewrite Hfind. unfold qa_true. by rewrite Hq.
  - simpl. by rewrite Hfind.
Qed.

Lemma direct_qna_override_witness :
  answer_query (with_qna [qna_project; qna_cie; qna_cie_again])
    "  When is CIE-1?"
  = Ok (lit "CIE-1 is in the <b>fifth week</b>.").
Proof.
  apply (direct_qna_override
           (with_qna [qna_project; qna_cie; qna_cie_again])
           "  When is CIE-1?" "When is CIE-1?"
           [qna_project] [qna_cie_again] qna_cie).
  - reflexivity.
  - reflexivity.
  - vm_compute. reflexivity.
  - repeat constructor. vm_compute. discriminate.
Defined.

(** C1, the counterexample: in the bank below the only question that
    is, as written, the normal form of the query is the one of the
    third entry; the answer returned is the one of the second entry,
    whose question equals the query once lower-cased. *)
Lemma direct_qna_literal_match_loses :
  let bank := [qna_project; qna_cie; qna_cie_again] in
  let query : str := "  When is CIE-1?" in
  SEM_QNA (with_qna bank) = bank
  ∧ qa_question qna_cie_again = Some (normalize_text query)
  ∧ qa_question qna_project ≠ Some (normalize_text query)
  ∧ qa_question qna_cie ≠ Some (normalize_text query)
  ∧ answer_query (with_qna bank) query = Ok (get (qa_answer qna_cie) "")
  ∧ answer_query (with_qna bank) query
    ≠ Ok (get (qa_answer qna_cie_again) "").
Proof.
  cbv zeta. split; [reflexivity|].
  split; [by vm_compute|].
  split; [by vm_compute|].
  split; [by vm_compute|].
  split; by vm_compute.
Qed.

(** ** Departments *)

Lemma str_in_empty (hay : str) : str_in [] hay = true.
Proof. by destruct hay. Qed.

Lemma first_dept_in_query_spec (q : str) (depts : list department) :
  first_in_query_spec q depts (first_dept_in_query q depts).
Proof.
  induction depts as [|d depts IH]; simpl; [by constructor|].
  destruct (dept_in_query q d) eqn:E.
  - exists [], depts. by repeat split.
  - unfold first_in_query_spec in *.
    destruct (first_dept_in_query q depts) as [d'|].
    + destruct IH as (pre & post & -> & H1 & H2).
      exists (d :: pre), post. repeat split; [done|]. by constructor.
    + by constructor.
Qed.

Lemma first_dept_in_query_first (q : str) (pre post : list department)
    (d : department) :
  Forall (fun d' => dept_in_query q d' = false) pre →
  dept_in_query q d = true →
  first_dept_in_query q (pre ++ d :: post) = Some d.
Proof.
  induction 1 as [|d' pre Hd' _ IH]; intros Hd; simpl.
  - by rewrite Hd.
  - rewrite Hd'. by apply IH.
Qed.

(** C10: a department whose name or short code is missing or empty is
    "in" every query; if no department before it is in the query, the
    substring loop of [find_department] returns it, and the similarity
    loop is not run. *)
Theorem find_department_empty_key (kb : knowledge_base) (q : str)
    (pre post : list department) (d : department) :
  departments kb = pre ++ d :: post →
  get (dept_name d) "" = [] ∨ get (dept_short d) "" = [] →
  Forall (fun d' => dept_in_query q d' = false) pre →
  first_dept_in_query q (departments kb) = Some d
  ∧ find_department kb q = Some d.
Proof.
  intros Hd Hempty Hpre.
  assert (H : first_dept_in_query q (departments kb) = Some d).
  { rewrite Hd. apply first_dept_in_query_first; [done|].
    unfold dept_in_query.
    destruct Hempty as [-> | ->]; simpl; rewrite str_in_empty; [done|].
    apply orb_true_r. }
  split; [done|]. unfold find_department. by rewrite H.
Qed.

Lemma find_department_empty_key_witness :
  first_dept_in_query "library hours"
    (departments (with_departments [dept_ece; dept_without_name]))
  = Some dept_without_name
  ∧ find_department (with_departments [dept_ece; dept_without_name])
      "library hours"
    = Some dept_without_name.
Proof.
  apply (find_department_empty_key
           (with_departments [dept_ece; dept_without_name]) "library hours"
           [dept_ece] [] dept_without_name).
  - reflexivity.
  - left. reflexivity.
  - repeat constructor.
Defined.

(** ** The two phases of the finders *)

(** C5, as amended: only [find_department] has a substring phase, which
    returns the first department whose lower-cased name or short code
    occurs in the query; when there is none it scores the departments.
    The calendar, Q&A and subject finders only score.  A scoring phase
    returns a candidate with a best-scoring key exactly when that score
    is above the threshold of the finder (0.6, 0.55, 0.7, 0.6). *)
Theorem finder_phases (kb : knowledge_base) (q : str) :
  first_in_query_spec q (departments kb)
    (first_dept_in_query q (departments kb))
  ∧ (∀ d, first_dept_in_query q (departments kb) = Some d →
          find_department kb q = Some d)
  ∧ (first_dept_in_query q (departments kb) = None →
     finder_spec dept_keys (6 # 10) q (departments kb) (find_department kb q))
  ∧ finder_spec ev_keys (55 # 100) q (CAL_EVENTS kb) (find_calendar_event kb q)
  ∧ finder_spec qa_keys (7 # 10) q (SEM_QNA kb) (find_semantic_qna kb q)
  ∧ finder_spec subj_keys (6 # 10) q (SUBJECTS kb)
      (find_subject_by_name_or_code kb q).
Proof.
  split; [apply first_dept_in_query_spec|].
  split; [by intros d H; unfold find_department; rewrite H|].
  split.
  { intros H. unfold find_department. rewrite H.
    by apply accept_best_match. }
  repeat split; by apply accept_best_match.
Qed.

Lemma finder_phases_witness :
  find_department (with_departments [dept_ece; dept_cse]) "who is the cse hod"
  = Some dept_cse
  ∧ finder_spec subj_keys (6 # 10) "iot" [subject_iot]
      (find_subject_by_name_or_code (with_subjects [subject_iot]) "iot").
Proof.
  destruct (finder_phases (with_departments [dept_ece; dept_cse])
              "who is the cse hod") as (_ & H & _).
  split; [apply H; vm_compute; reflexivity|].
  apply (finder_phases (with_subjects [subject_iot]) "iot").
Defined.

(** C5, the counterexample: the subject finder has no substring phase.
    The subject name "iot" occurs in the query, and the finder returns
    nothing because no key scores above 0.6. *)
Lemma subject_finder_ignores_substring :
  str_in (lower "IoT") "who teaches iot in the seventh semester" = true
  ∧ find_subject_by_name_or_code (with_subjects [subject_iot])
      "who teaches iot in the seventh semester" = None.
Proof. split; by vm_compute. Qed.

(** ** Fallback *)

Lemma similarity_empty_query (key : str) :
  key ≠ [] → similarity [] key = (0 # Pos.of_nat (length key))%Q.
Proof.
  intros Hne. unfold similarity, ratio, get_matching_blocks.
  generalize (chain_b key). intros b2j.
  destruct key as [|c key]; [done|]. reflexivity.
Qed.

Lemma finder_spec_none {A} (keys : A -> list str) (threshold : Q) (q : str)
    (candidates : list A) (r : option A) :
  finder_spec keys threshold q candidates r →
  (∀ x key, x ∈ candidates → key ∈ keys x →
     (similarity q key <= threshold)%Q) →
  r = None.
Proof.
  destruct r as [x|]; [|done]. intros (Hx & key & Hkey & Hlt & _) Hall.
  exfalso. eapply Qlt_not_le; [exact Hlt|]. by apply (Hall x).
Qed.

Lemma find_semantic_qna_empty_query (kb : knowledge_base) :
  Forall (fun qa => get (qa_question qa) "" ≠ []) (SEM_QNA kb) →
  find_semantic_qna kb [] = None.
Proof.
  intros Hall.
  apply (finder_spec_none qa_keys (7 # 10) [] (SEM_QNA kb)).
  - by apply accept_best_match.
  - intros qa key Hqa Hkey. unfold qa_keys in Hkey.
    apply list_elem_of_singleton in Hkey as ->.
    rewrite Forall_forall in Hall. specialize (Hall qa Hqa).
    rewrite similarity_empty_query; [done|].
    unfold lower. by destruct (get (qa_question qa) "").
Qed.

(** Apart from the direct Q&A block, the conditions of the blocks do
    not read the knowledge base. *)
Lemma gate_fixed (kb : knowledge_base) (i : intent) (q : str) :
  i ≠ DirectQna → gate kb i q = gate empty_kb i q.
Proof. by destruct i. Qed.

Lemma route_fallback (kb : knowledge_base) (q : str) :
  (∀ i, gate kb i q = true → handler kb i q = None) →
  route kb intent_chain q = Ok fallback.
Proof.
  intros H. rewrite <- (app_nil_r intent_chain).
  rewrite route_skip_all; [done|]. apply Forall_forall. intros i _. apply H.
Qed.

Lemma no_gate_without_qna (kb : knowledge_base) (q : str) :
  find_semantic_qna kb q = None →
  (∀ i, i ≠ DirectQna → gate empty_kb i q = false) →
  ∀ i, gate kb i q = true → handler kb i q = None.
Proof.
  intros Hq Hg i Hi. destruct (decide (i = DirectQna)) as [->|Hne].
  - simpl in Hi. by rewrite Hq in Hi.
  - by rewrite gate_fixed, Hg in Hi.
Qed.

Lemma handler_none (kb : knowledge_base) (i : intent) (q : str) :
  gate kb i q = true → handler kb i q = None → i ∈ may_fall_through.
Proof.
  unfold may_fall_through. intros Hg Hh.
  destruct i; cbn [handler] in Hh; try discriminate Hh;
    try (apply list_elem_of_In; simpl; tauto).
  cbn [gate] in Hg. by destruct (find_semantic_qna kb q).
Qed.

(** C7, as amended: when every block whose condition holds is left
    without a [return] (in particular when no condition holds),
    [answer_query] returns the fallback message; only the
    calendar-event, facilities, labs and directions blocks can be left
    so; the fallback is what the empty query gets if no question of the
    bank is empty, and what "xyzzy qwerty" gets if the bank has no
    question close to it. *)
Theorem fallback_guarantee (kb : knowledge_base) :
  (∀ query,
     (∀ i, gate kb i (normalize_text query) = true →
           handler kb i (normalize_text query) = None) →
     answer_query kb query = Ok fallback)
  ∧ (∀ q i, gate kb i q = true → handler kb i q = None →
            i ∈ may_fall_through)
  ∧ (Forall (fun qa => get (qa_question qa) "" ≠ []) (SEM_QNA kb) →
     answer_query kb "" = Ok fallback)
  ∧ (find_semantic_qna kb "xyzzy qwerty" = None →
     answer_query kb "xyzzy qwerty" = Ok fallback).
Proof.
  split; [|split; [|split]].
  - intros query H. by apply route_fallback.
  - intros q i. apply handler_none.
  - intros Hbank. unfold answer_query.
    change (normalize_text "") with (@nil ascii).
    apply route_fallback, no_gate_without_qna.
    + by apply find_semantic_qna_empty_query.
    + intros i Hi. destruct i; try done; by vm_compute.
  - intros Hq. unfold answer_query.
    replace (normalize_text "xyzzy qwerty") with (lit "xyzzy qwerty")
      by (by vm_compute).
    apply route_fallback, no_gate_without_qna; [done|].
    intros i Hi. destruct i; try done; by vm_compute.
Qed.

Lemma fallback_guarantee_witness :
  answer_query (with_qna [qna_project; qna_cie]) "" = Ok fallback
  ∧ answer_query (with_qna [qna_project; qna_cie]) "xyzzy qwerty" = Ok fallback.
Proof.
  destruct (fallback_guarantee (with_qna [qna_project; qna_cie]))
    as (_ & _ & H1 & H2).
  split.
  - apply H1. repeat constructor; discriminate.
  - apply H2. vm_compute. reflexivity.
Defined.

(** C7, the counterexample: the HOD block, when no department can be
    resolved, returns its own prompt, not the fallback message. *)
Lemma hod_prompt_is_not_fallback :
  gate empty_kb Hod (normalize_text "hod") = true
  ∧ resolve_department empty_kb (normalize_text "hod") = None
  ∧ answer_query empty_kb "hod"
    = Ok (lit "Please specify a valid department for HOD information.")
  ∧ answer_query empty_kb "hod" ≠ Ok fallback.
Proof. repeat split; by vm_compute. Qed.

(** ** First match wins *)

Lemma facility_in_query_named (q : str) (f : facility) :
  facility_in_query q f = true → is_Some (fac_name f).
Proof.
  unfold facility_in_query. destruct (fac_name f); [by eexists|]. done.
Qed.

(** A block outside [may_raise] that ends, ends with a string: it reads
    its records through [get], or subscripts them behind a guard. *)
Lemma handler_returns (kb : knowledge_base) (i : intent) (q : str)
    (r : result str) :
  i ∉ may_raise → handler kb i q = Some r → ∃ answer, r = Ok answer.
Proof.
  intros Hi.
  destruct i; cbn [handler];
    try (exfalso; apply Hi, list_elem_of_In; simpl; tauto);
    try (intros [= <-]; by eexists).
  - destruct (find_semantic_qna kb q); [|done]. simpl.
    intros [= <-]. by eexists.
  - destruct (find_calendar_event kb q) as [ev|]; [|done].
    destruct (ev_true ev); [|done]. intros [= <-]. by eexists.
  - unfold facilities_answer.
    destruct (find (facility_in_query q) (facilities kb)) as [f|] eqn:E.
    + apply find_some in E as [_ E].
      apply facility_in_query_named in E as [n ->].
      intros [= <-]. simpl. by eexists.
    + destruct (map _ (facilities kb)); [done|]. intros [= <-]. by eexists.
Qed.

(** C8, as amended: the first block whose condition holds ends the
    chain, unless it is left without a [return]: what [answer_query]
    gives is what that block gives, a string or, for the blocks of
    [may_raise] only, possibly an exception; no later block is
    consulted.  Only the calendar-event, facilities, labs and directions
    blocks can be left without a [return], and then the blocks after
    them are tried. *)
Theorem first_match_wins (kb : knowledge_base) (query : str)
    (pre post : list intent) (i : intent) :
  intent_chain = pre ++ i :: post →
  Forall (fun i' => gate kb i' (normalize_text query) = false) pre →
  gate kb i (normalize_text query) = true →
  match handler kb i (normalize_text query) with
  | Some r =>
      answer_query kb query = r
      ∧ (i ∉ may_raise → ∃ answer, r = Ok answer)
  | None =>
      i ∈ may_fall_through
      ∧ answer_query kb query = route kb post (normalize_text query)
  end.
Proof.
  intros Hchain Hpre Hi. unfold answer_query. rewrite Hchain.
  rewrite route_skip_all.
  - rewrite route_cons, Hi.
    destruct (handler kb i (normalize_text query)) as [r|] eqn:E.
    + split; [done|]. intros Hr.
      by apply (handler_returns kb i (normalize_text query)).
    + split; [|done]. by apply (handler_none kb i (normalize_text query)).
  - eapply Forall_impl; [exact Hpre|]. simpl. intros i' -> ?. done.
Qed.

Lemma first_match_wins_witness :
  answer_query (with_departments [dept_ece; dept_cse]) "CSE HOD"
  = Ok (lit "HOD of Computer Science and Engineering: Dr. Kumar")
  ∧ ∃ answer,
      answer_query (with_departments [dept_ece; dept_cse]) "principal"
      = Ok answer.
Proof.
  split.
  - refine (proj1 (_ : _ ∧ (Hod ∉ may_raise → ∃ answer,
               Ok (lit "HOD of Computer Science and Engineering: Dr. Kumar")
               = Ok answer))).
    apply (first_match_wins (with_departments [dept_ece; dept_cse]) "CSE HOD"
             [DirectQna; CalendarLink; CalendarEvent; VicePrincipal; Principal]
             [Faculty; Fees; Departments; Timetable; Subjects; Facilities;
              Labs; Events; CollegeName; Directions] Hod).
    + reflexivity.
    + repeat constructor; vm_compute; reflexivity.
    + vm_compute. reflexivity.
  - pose proof (first_match_wins (with_departments [dept_ece; dept_cse])
                  "principal"
                  [DirectQna; CalendarLink; CalendarEvent; VicePrincipal]
                  [Hod; Faculty; Fees; Departments; Timetable; Subjects;
                   Facilities; Labs; Events; CollegeName; Directions]
                  Principal eq_refl) as H.
    cbn [handler] in H. destruct H as [H1 H2].
    + repeat constructor; vm_compute; reflexivity.
    + vm_compute. reflexivity.
    + rewrite H1. apply H2. intros Hin. apply list_elem_of_In in Hin.
      simpl in Hin. intuition discriminate.
Defined.

(** C8, the counterexample: for "library event" the first block whose
    condition holds is the facilities block; with no facility in the
    knowledge base it is left without a [return], and the answer is the
    one of the events block, further down the chain. *)
Lemma facilities_block_falls_through :
  Forall (fun i => gate empty_kb i (normalize_text "library event") = false)
    [DirectQna; CalendarLink; CalendarEvent; VicePrincipal; Principal; Hod;
     Faculty; Fees; Departments; Timetable; Subjects]
  ∧ gate empty_kb Facilities (normalize_text "library event") = true
  ∧ handler empty_kb Facilities (normalize_text "library event") = None
  ∧ gate empty_kb Events (normalize_text "library event") = true
  ∧ answer_query empty_kb "library event"
    = Ok (lit "No events information is available right now.").
Proof.
  split; [repeat constructor; by vm_compute|].
  repeat split; by vm_compute.
Qed.

(** ** Missing fields *)

(** C2, the failing input: a department record without the [name] key
    is found through its short code, and the HOD block reads
    [dept['name']]. *)
Lemma hod_of_unnamed_department_raises :
  answer_query (with_departments [dept_without_name]) "CSE HOD"
  = Raise KeyError.
Proof. by vm_compute. Qed.

(** The general-information block reads the same key through [get]
    and answers with the placeholder. *)
Lemma info_of_unnamed_department :
  answer_query (with_departments [dept_without_name]) "Tell me about CSE"
  = Ok (lit "Department is located at Location not available. Courses offered: Not specified.").
Proof. by vm_compute. Qed.

(** ** Timetable tables *)

Lemma max_periods_ge (tt_list : list timetable_row) (r : timetable_row) :
  r ∈ tt_list → length (get (row_periods r) []) ≤ max_periods tt_list.
Proof.
  unfold max_periods. induction 1 as [r l | r r' l _ IH]; simpl; lia.
Qed.

Lemma max_periods_attained (tt_list : list timetable_row) :
  tt_list ≠ [] →
  ∃ r, r ∈ tt_list ∧ length (get (row_periods r) []) = max_periods tt_list.
Proof.
  unfold max_periods. induction tt_list as [|r l IH]; [done|]. intros _.
  destruct l as [|r' l].
  - exists r. split; [by left|]. simpl. lia.
  - destruct IH as (r0 & Hin & Hlen); [done|].
    simpl in *.
    destruct (Nat.max_spec (length (get (row_periods r) []))
                (Nat.max (length (get (row_periods r') []))
                   (foldr Nat.max 0
                      (map (fun r => length (get (row_periods r) [])) l))))
      as [[_ ->] | [_ ->]].
    + exists r0. split; [by right|done].
    + exists r. split; [by left|done].
Qed.

Lemma full_row_cells_padded (n : nat) (r : timetable_row) :
  full_row_cells n r
  = map td (get (row_periods r) [])
    ++ repeat (lit "<td>-</td>") (n - length (get (row_periods r) [])).
Proof.
  unfold full_row_cells. destruct (_ <? _) eqn:E; [done|].
  apply Nat.ltb_ge in E.
  replace (n - length (get (row_periods r) [])) with 0 by lia.
  simpl. by rewrite app_nil_r.
Qed.

Lemma header_cells_lookup (n i : nat) :
  i < n → header_cells n !! i = Some (th (i + 1)).
Proof.
  intros Hi. unfold header_cells.
  rewrite list_lookup_fmap, lookup_seq_lt by done. simpl.
  by rewrite Nat.add_comm.
Qed.

Lemma join_empty (parts : list str) : join "" parts = concat parts.
Proof.
  induction parts as [|p [|p' parts] IH]; [done| |].
  - simpl. by rewrite app_nil_r.
  - change (join "" (p :: p' :: parts)) with (p ++ join "" (p' :: parts)).
    by rewrite IH.
Qed.

Lemma lookup_repeat {A} (a : A) (m i : nat) :
  i < m → repeat a m !! i = Some a.
Proof.
  revert i. induction m as [|m IH]; intros [|i] Hi; simpl; [lia|lia|done|].
  apply IH. lia.
Qed.

Lemma full_row_html_text (n : nat) (r : timetable_row) :
  full_row_html n r
  = "<tr><td>" ++ default [] (row_day r) ++ "</td>"
    ++ concat (map (fun p : str => "<td>" ++ p ++ "</td>")
                 (default [] (row_periods r))
               ++ repeat (lit "<td>-</td>")
                    (n - length (default [] (row_periods r))))
    ++ "</tr>".
Proof. unfold full_row_html. by rewrite join_empty, full_row_cells_padded. Qed.

(** C6: the text of the two tables, character for character.  In the
    full-week table the header line has the [max_periods] labels
    [<th>P1</th>] .. [<th>Pn</th>], where [max_periods] is the largest
    period count of a row (some row has that many periods, none has
    more), and the line of every row has the row's own periods, one
    [<td>] cell each, followed by [<td>-</td>] cells, exactly
    [max_periods] cells in all.  The single-day table has as many
    labels and cells as the row itself has periods, without padding. *)
Theorem timetable_padding (tt_list : list timetable_row) (section_label : str)
    (r : timetable_row) :
  tt_list ≠ [] → r ∈ tt_list →
  let n := max_periods tt_list in
  let periods := fun row : timetable_row => default [] (row_periods row) in
  let day := fun row : timetable_row => default [] (row_day row) in
  let label := fun i : nat =>
    "<th>P" ++ lit (NilEmpty.string_of_uint (Nat.to_uint i)) ++ "</th>" in
  let labels := fun k : nat => map label (seq 1 k) in
  let cell := fun p : str => "<td>" ++ p ++ "</td>" in
  let padded := fun row : timetable_row =>
    map cell (periods row)
    ++ repeat (lit "<td>-</td>") (n - length (periods row)) in
  let line := fun (d : str) (cells : list str) =>
    "<tr><td>" ++ d ++ "</td>" ++ concat cells ++ "</tr>" in
  let nl : str := ["010"%char] in
  let dq : str := ["034"%char] in
  let table := fun (title : str) (header : list str) (lines : list str) =>
    nl ++ "    <div class=" ++ dq ++ "timetable-container" ++ dq ++ ">" ++ nl
    ++ "      <strong>" ++ title ++ "</strong>" ++ nl
    ++ "      <table class=" ++ dq ++ "timetable" ++ dq ++ ">" ++ nl
    ++ "        <thead>" ++ nl
    ++ "          <tr><th>Day</th>" ++ concat header ++ "</tr>" ++ nl
    ++ "        </thead>" ++ nl
    ++ "        <tbody>" ++ nl
    ++ "          " ++ concat lines ++ nl
    ++ "        </tbody>" ++ nl
    ++ "      </table>" ++ nl
    ++ "    </div>" ++ nl
    ++ "    " in
  (∃ r', r' ∈ tt_list ∧ length (periods r') = n)
  ∧ length (periods r) ≤ n
  ∧ length (labels n) = n
  ∧ (∀ i, i < n → labels n !! i = Some (label (i + 1)))
  ∧ length (padded r) = n
  ∧ (∀ i, i < length (periods r) →
          padded r !! i = cell <$> periods r !! i)
  ∧ (∀ i, length (periods r) ≤ i < n → padded r !! i = Some (lit "<td>-</td>"))
  ∧ build_full_timetable_html tt_list section_label
    = table (full_title section_label) (labels n)
        (map (fun row => line (day row) (padded row)) tt_list)
  ∧ ∀ (row : timetable_row) (section : str),
      periods row ≠ [] →
      length (labels (length (periods row))) = length (periods row)
      ∧ length (map cell (periods row)) = length (periods row)
      ∧ build_single_day_table_html row section
        = table (single_title row section) (labels (length (periods row)))
            [line (day row) (map cell (periods row))].
Proof.
  intros Hne Hr n periods day label labels cell padded line nl dq table.
  pose proof (max_periods_ge tt_list r Hr) as Hle. fold n in Hle.
  assert (Hlabels : ∀ k, labels k = header_cells k) by done.
  split; [by apply max_periods_attained|].
  split; [done|].
  split; [unfold labels; by rewrite length_map, length_seq|].
  split; [intros i Hi; rewrite Hlabels; by apply header_cells_lookup|].
  split.
  { unfold padded. rewrite length_app, length_map, repeat_length.
    change (get (row_periods r) []) with (periods r) in Hle. lia. }
  split.
  { intros i Hi. unfold padded.
    rewrite lookup_app_l by (by rewrite length_map).
    apply list_lookup_fmap. }
  split.
  { intros i [Hi1 Hi2]. unfold padded.
    rewrite lookup_app_r by (by rewrite length_map).
    rewrite length_map. apply lookup_repeat. lia. }
  split.
  { unfold build_full_timetable_html. destruct tt_list as [|r0 tt_list]; [done|].
    cbv zeta. fold n. unfold table_html.
    rewrite !join_empty, <- Hlabels.
    rewrite (map_ext (full_row_html n)
               (fun row => line (day row) (padded row)))
      by apply full_row_html_text.
    unfold table, nl, dq, newline, dquote, full_title.
    cbn [join]. rewrite <- !app_assoc. reflexivity. }
  intros row section Hp.
  split; [unfold labels; by rewrite length_map, length_seq|].
  split; [by rewrite length_map|].
  unfold build_single_day_table_html. cbv zeta.
  change (get (row_periods row) []) with (periods row).
  destruct (periods row) as [|p ps] eqn:E; [done|].
  unfold table_html. rewrite !join_empty, <- Hlabels.
  unfold single_row_cells.
  change (get (row_periods row) []) with (periods row). rewrite E.
  unfold table, line, nl, dq, newline, dquote, single_title, day, cell.
  cbn [join concat]. rewrite <- !app_assoc. reflexivity.
Qed.

Lemma timetable_padding_witness :
  max_periods [row_monday; row_tuesday] = 3
  ∧ build_full_timetable_html [row_monday; row_tuesday] "a"
    = lit (String "010" "    <div class=")
      ++ ["034"%char] ++ "timetable-container" ++ ["034"%char]
      ++ lit (String ">"
           (String "010" "      <strong>📅 7th Semester A Timetable</strong>"))
      ++ lit (String "010" "      <table class=")
      ++ ["034"%char] ++ "timetable" ++ ["034"%char]
      ++ lit (String ">" (String "010" "        <thead>"))
      ++ lit (String "010"
           "          <tr><th>Day</th><th>P1</th><th>P2</th><th>P3</th></tr>")
      ++ lit (String "010" "        </thead>")
      ++ lit (String "010" "        <tbody>")
      ++ lit (String "010" "          ")
      ++ "<tr><td>Monday</td><td>IoT</td><td>Cloud</td><td>Project</td></tr>"
      ++ "<tr><td>Tuesday</td><td>Seminar</td><td>-</td><td>-</td></tr>"
      ++ lit (String "010" "        </tbody>")
      ++ lit (String "010" "      </table>")
      ++ lit (String "010" "    </div>")
      ++ lit (String "010" "    ")
  ∧ build_single_day_table_html row_tuesday "a"
    = lit (String "010" "    <div class=")
      ++ ["034"%char] ++ "timetable-container" ++ ["034"%char]
      ++ lit (String ">"
           (String "010" "      <strong>📋 Tuesday - 7th Sem A</strong>"))
      ++ lit (String "010" "      <table class=")
      ++ ["034"%char] ++ "timetable" ++ ["034"%char]
      ++ lit (String ">" (String "010" "        <thead>"))
      ++ lit (String "010" "          <tr><th>Day</th><th>P1</th></tr>")
      ++ lit (String "010" "        </thead>")
      ++ lit (String "010" "        <tbody>")
      ++ lit (String "010" "          ")
      ++ "<tr><td>Tuesday</td><td>Seminar</td></tr>"
      ++ lit (String "010" "        </tbody>")
      ++ lit (String "010" "      </table>")
      ++ lit (String "010" "    </div>")
      ++ lit (String "010" "    ").
Proof.
  destruct (timetable_padding [row_monday; row_tuesday] "a" row_tuesday)
    as (_ & _ & _ & _ & _ & _ & _ & H1 & H2).
  - discriminate.
  - right. left.
  - split; [reflexivity|]. split.
    + rewrite H1. vm_compute. reflexivity.
    + destruct (H2 row_tuesday "a") as (_ & _ & H3); [discriminate|].
      rewrite H3. vm_compute. reflexivity.
Defined.

(** ** Normalisation *)

Lemma lower_char_idem (c : ascii) : lower_char (lower_char c) = lower_char c.
Proof.
  destruct c as [[] [] [] [] [] [] [] []]; reflexivity.
Qed.

Lemma lower_is_lower (s : str) : is_lower (lower s).
Proof.
  unfold is_lower, lower. apply Forall_forall.
  intros c (c' & -> & _)%list_elem_of_fmap. apply lower_char_idem.
Qed.

Lemma is_lower_fixed (s : str) : is_lower s → lower s = s.
Proof.
  unfold lower. induction 1 as [|c s Hc _ IH]; simpl; [done|].
  by rewrite Hc, IH.
Qed.

Lemma lstrip_is_lower (s : str) : is_lower s → is_lower (lstrip s).
Proof.
  induction 1 as [|c s Hc Hs IH]; simpl; [constructor|].
  destruct (is_space c); [done|by constructor].
Qed.

Lemma strip_is_lower (s : str) : is_lower s → is_lower (strip s).
Proof.
  intros H. unfold strip, rstrip.
  apply Forall_rev, lstrip_is_lower, Forall_rev. by apply lstrip_is_lower.
Qed.

Lemma replace_from_is_lower (old new : str) :
  is_lower new →
  ∀ s skip, is_lower s → is_lower (replace_from old new skip s).
Proof.
  intros Hnew s. induction s as [|c s IH]; intros skip Hs; simpl; [constructor|].
  apply Forall_cons in Hs as [Hc Hs].
  destruct skip as [|n]; [|by apply IH].
  destruct (startswith old (c :: s)).
  - apply Forall_app. split; [done|by apply IH].
  - constructor; [done|by apply IH].
Qed.

(** The head of a string and its strips. *)
Lemma lstrip_head_ok (s : str) : head_ok (lstrip s).
Proof.
  induction s as [|c s IH]; simpl; [done|].
  by destruct (is_space c) eqn:E.
Qed.

Lemma head_ok_lstrip (s : str) : head_ok s → lstrip s = s.
Proof. destruct s as [|c s]; simpl; [done|]. by intros ->. Qed.

Lemma lstrip_snoc (s : str) (c : ascii) :
  is_space c = false → lstrip (s ++ [c]) = lstrip s ++ [c].
Proof.
  intros Hc. induction s as [|x s IH]; simpl; [by rewrite Hc|].
  by destruct (is_space x).
Qed.

Lemma rstrip_head_ok (s : str) : head_ok s → head_ok (rstrip s).
Proof.
  destruct s as [|c s]; [done|]. simpl. intros Hc.
  unfold rstrip. simpl. rewrite lstrip_snoc by done.
  rewrite rev_app_distr. simpl. done.
Qed.

Lemma strip_head_ok (s : str) : head_ok (strip s).
Proof. apply rstrip_head_ok, lstrip_head_ok. Qed.

Lemma strip_last_ok (s : str) : last_ok (strip s).
Proof.
  unfold last_ok, strip, rstrip. rewrite rev_involutive. apply lstrip_head_ok.
Qed.

Lemma strip_fixed (s : str) : head_ok s → last_ok s → strip s = s.
Proof.
  intros Hh Hl. unfold strip, rstrip. rewrite (head_ok_lstrip s Hh).
  rewrite (head_ok_lstrip (rev s) Hl). apply rev_involutive.
Qed.

Lemma head_ok_app (s t : str) : head_ok s → head_ok t → head_ok (s ++ t).
Proof. by destruct s. Qed.

Lemma replace_from_nil (old new : str) (s : str) :
  new ≠ [] → replace_from old new 0 s = [] → s = [].
Proof.
  intros Hnew. destruct s as [|c s]; [done|]. simpl.
  destruct (startswith old (c :: s)); [|done].
  destruct new; [done|]. done.
Qed.

Lemma replace_from_head_ok (old new s : str) :
  new ≠ [] → head_ok new → head_ok s → head_ok (replace_from old new 0 s).
Proof.
  intros Hne Hnew Hs. destruct s as [|c s]; [done|]. simpl.
  destruct (startswith old (c :: s)); [|done].
  by destruct new.
Qed.

Lemma replace_from_last_ok (old new : str) :
  new ≠ [] → last_ok new →
  ∀ s skip, last_ok s → last_ok (replace_from old new skip s).
Proof.
  intros Hne Hnew s. induction s as [|c s IH]; intros skip Hs; [done|].
  assert (Hs' : last_ok s).
  { unfold last_ok in *. simpl in Hs. destruct (rev s) eqn:E; [done|].
    by simpl in Hs. }
  simpl. destruct skip as [|n]; [|by apply IH].
  destruct (startswith old (c :: s)).
  - unfold last_ok. rewrite rev_app_distr. apply head_ok_app; [|done].
    by apply IH.
  - unfold last_ok. simpl.
    destruct (rev (replace_from old new 0 s)) eqn:E.
    + apply (f_equal (@rev ascii)) in E. rewrite rev_involutive in E.
      simpl in E. apply replace_from_nil in E as ->; [|done].
      exact Hs.
    + simpl. specialize (IH 0 Hs'). unfold last_ok in IH.
      by rewrite E in IH.
Qed.

(** A replacement whose phrase does not occur changes nothing. *)
Lemma replace_absent (old new s : str) :
  old ≠ [] → str_in old s = false → replace old new s = s.
Proof.
  intros Hold. destruct old as [|o old]; [done|]. clear Hold. unfold replace.
  induction s as [|c s IH]; [done|].
  cbn [str_in replace_from]. intros [H1 H2]%orb_false_iff.
  rewrite H1. f_equal. by apply IH.
Qed.

Lemma apply_synonyms_clean (table : list (str * str)) :
  table_ok table →
  ∀ q, is_lower q → head_ok q → last_ok q →
       is_lower (apply_synonyms table q)
       ∧ head_ok (apply_synonyms table q)
       ∧ last_ok (apply_synonyms table q).
Proof.
  unfold apply_synonyms.
  induction 1 as [|[old new] table (H1 & H2 & H3 & H4 & H5) _ IH];
    intros q Hq1 Hq2 Hq3; simpl in *; [done|].
  destruct old as [|o old]; [done|].
  apply IH; unfold replace.
  - by apply replace_from_is_lower.
  - by apply replace_from_head_ok.
  - by apply replace_from_last_ok.
Qed.

Lemma apply_synonyms_absent (table : list (str * str)) (q : str) :
  Forall (fun p => p.1 ≠ []) table →
  Forall (fun p => str_in p.1 q = false) table →
  apply_synonyms table q = q.
Proof.
  unfold apply_synonyms.
  induction 1 as [|[old new] table H1 _ IH]; intros Hq; simpl; [done|].
  apply Forall_cons in Hq as [Hq1 Hq2]. simpl in *.
  rewrite replace_absent by done. by apply IH.
Qed.

Lemma synonyms_ok : table_ok synonyms.
Proof.
  unfold table_ok, synonyms. simpl.
  repeat (constructor; [by repeat split; try (by repeat constructor)|]).
  constructor.
Qed.

Lemma normalize_text_clean (s : str) :
  is_lower (normalize_text s) ∧ head_ok (normalize_text s)
  ∧ last_ok (normalize_text s).
Proof.
  unfold normalize_text. apply apply_synonyms_clean.
  - apply synonyms_ok.
  - apply strip_is_lower, lower_is_lower.
  - apply strip_head_ok.
  - apply strip_last_ok.
Qed.

(** C3, as amended: normalising a normalised string returns it
    unchanged when it contains no phrase of the synonym table. *)
Theorem normalize_text_idempotent_when_clean (s : str) :
  Forall (fun p => str_in p.1 (normalize_text s) = false) synonyms →
  normalize_text (normalize_text s) = normalize_text s.
Proof.
  intros Hclean.
  destruct (normalize_text_clean s) as (H1 & H2 & H3).
  unfold normalize_text at 1.
  rewrite (is_lower_fixed _ H1), (strip_fixed _ H2 H3).
  apply apply_synonyms_absent; [|done].
  eapply Forall_impl; [apply synonyms_ok|]. by intros p [? _].
Qed.

Lemma normalize_text_idempotent_when_clean_witness :
  normalize_text (normalize_text "  Head of Dept, Time Table ")
  = normalize_text "  Head of Dept, Time Table ".
Proof.
  apply (normalize_text_idempotent_when_clean "  Head of Dept, Time Table ").
  unfold synonyms. simpl map. repeat constructor.
Defined.

(** C3, the counterexample: a replacement can put a phrase of the table
    into the string, and the second normalisation rewrites it. *)
Lemma normalize_text_not_idempotent :
  normalize_text "Academic Event Calendar" = lit "academic calendar"
  ∧ normalize_text (normalize_text "Academic Event Calendar") = lit "calendar"
  ∧ normalize_text (normalize_text "Academic Event Calendar")
    ≠ normalize_text "Academic Event Calendar".
Proof. repeat split; by vm_compute. Qed.

(** ** Splitting compound questions *)

Lemma span_le (f : ascii -> bool) (s : str) : span f s ≤ length s.
Proof. induction s as [|c s IH]; simpl; [done|]. destruct (f c); lia. Qed.

Lemma span_take (f : ascii -> bool) (s : str) :
  Forall (fun c => f c = true) (take (span f s) s).
Proof.
  induction s as [|c s IH]; simpl; [constructor|].
  destruct (f c) eqn:E; simpl; [by constructor|constructor].
Qed.

Lemma take_plus (s : str) :
  ∀ n m, take (n + m) s = take n s ++ take m (drop n s).
Proof.
  induction s as [|c s IH]; intros n m.
  - by rewrite drop_nil, !take_nil.
  - destruct n as [|n]; simpl; [done|]. by rewrite IH.
Qed.

Lemma startswith_take (p s : str) :
  startswith p s = true → take (length p) s = p.
Proof.
  revert s. induction p as [|x p IH]; intros s; simpl; [done|].
  destruct s as [|y s]; [done|].
  intros [->%ascii_eqb_true H]%andb_true_iff. simpl. by rewrite IH.
Qed.

Lemma match_separator_sound (s : str) (m : nat) :
  match_separator s = Some m → m ≤ length s ∧ is_separator (take m s).
Proof.
  unfold match_separator.
  set (w := span is_space s). set (s1 := drop w s).
  set (p := span is_punct s1). set (w2 := span is_space (drop p s1)).
  set (w3 := span is_space (drop 3 s1)).
  pose proof (span_le is_space s) as Hw. fold w in Hw.
  pose proof (span_le is_punct s1) as Hp. fold p in Hp.
  pose proof (span_le is_space (drop p s1)) as Hw2. fold w2 in Hw2.
  pose proof (span_le is_space (drop 3 s1)) as Hw3. fold w3 in Hw3.
  assert (Hs1 : length s1 = length s - w) by apply length_drop.
  rewrite length_drop in Hw2, Hw3.
  destruct (0 <? p) eqn:Ep.
  - apply Nat.ltb_lt in Ep. intros [= <-]. split; [lia|].
    left. exists (take w s), (take p s1), (take w2 (drop p s1)).
    split; [by rewrite <- Nat.add_assoc, !take_plus|].
    split; [apply span_take|]. split; [apply span_take|].
    split; [|apply span_take].
    intros E. apply (f_equal length) in E. rewrite length_take in E.
    simpl in E. lia.
  - destruct ((0 <? w) && startswith "and" s1) eqn:Ea; [|done].
    apply andb_true_iff in Ea as [Ew Ea]. apply Nat.ltb_lt in Ew.
    destruct (0 <? w3) eqn:E3; [|done]. apply Nat.ltb_lt in E3.
    intros [= <-].
    pose proof (startswith_take "and" s1 Ea) as Hand. simpl length in Hand.
    assert (3 ≤ length s1).
    { apply (f_equal length) in Hand. rewrite length_take in Hand.
      simpl in Hand. lia. }
    split; [lia|].
    right. exists (take w s), (take w3 (drop 3 s1)).
    split; [rewrite <- Nat.add_assoc, !take_plus; fold s1; by rewrite Hand|].
    split; [apply span_take|].
    split.
    { intros E. apply (f_equal length) in E. rewrite length_take in E.
      simpl in E. lia. }
    split; [apply span_take|].
    intros E. apply (f_equal length) in E.
    rewrite length_take, length_drop in E. simpl in E. lia.
Qed.

Lemma match_separator_punct (c : ascii) (s : str) :
  is_punct c = true → ∃ n, match_separator (c :: s) = Some (S n).
Proof.
  intros Hc.
  assert (Hs : is_space c = false).
  { unfold is_punct in Hc.
    apply orb_true_iff in Hc as [Hc|Hc];
      [apply orb_true_iff in Hc as [Hc|Hc]|];
      apply ascii_eqb_true in Hc as ->; reflexivity. }
  unfold match_separator. simpl span. rewrite Hs. simpl drop.
  simpl span. rewrite Hc. simpl. eauto.
Qed.

(** The pieces of [re.split] and the separators between them make up
    the text, in order. *)
Lemma re_split_from_weave (s : str) :
  ∀ skip cur, skip ≤ length s →
    ∃ first rest,
      re_split_from skip cur s = (cur ++ first) :: map snd rest
      ∧ drop skip s = weave first rest
      ∧ Forall (fun x => is_separator x.1) rest.
Proof.
  induction s as [|c s IH]; intros skip cur Hskip.
  - exists [], []. simpl. rewrite app_nil_r. by destruct skip.
  - destruct skip as [|n].
    + cbn [re_split_from].
      destruct (match_separator (c :: s)) as [[|n]|] eqn:E.
      * destruct (IH 0 (cur ++ [c])) as (first & rest & E1 & E2 & E3);
          [lia|].
        exists (c :: first), rest. rewrite E1, <- app_assoc. simpl in *.
        unfold weave in *. simpl. by rewrite <- E2.
      * apply match_separator_sound in E as [Hn Hsep]. simpl in Hn.
        destruct (IH n []) as (first & rest & E1 & E2 & E3); [lia|].
        exists [], ((take (S n) (c :: s), first) :: rest).
        rewrite E1, app_nil_r. split; [done|]. split; [|by constructor].
        unfold weave in *. cbn [map concat fst snd app].
        rewrite <- (app_assoc _ first), <- E2.
        change (drop n s) with (drop (S n) (c :: s)).
        by rewrite take_drop.
      * destruct (IH 0 (cur ++ [c])) as (first & rest & E1 & E2 & E3);
          [lia|].
        exists (c :: first), rest. rewrite E1, <- app_assoc. simpl in *.
        unfold weave in *. simpl. by rewrite <- E2.
    + cbn [re_split_from]. simpl in Hskip.
      destruct (IH n cur) as (first & rest & E1 & E2 & E3); [lia|].
      exists first, rest. by rewrite E1.
Qed.

Lemma span_app_all (f : ascii -> bool) (w t : str) :
  Forall (fun c => f c = true) w → span f (w ++ t) = length w + span f t.
Proof.
  induction 1 as [|c w Hc _ IH]; simpl; [done|]. by rewrite Hc, IH.
Qed.

Lemma drop_app_length' (w t : str) : drop (length w) (w ++ t) = t.
Proof. induction w as [|c w IH]; simpl; done. Qed.

Lemma startswith_app (p t : str) : startswith p (p ++ t) = true.
Proof.
  induction p as [|c p IH]; simpl; [done|].
  by rewrite Ascii.eqb_refl, IH.
Qed.

Lemma span_space_punct (p t : str) :
  Forall (fun c => is_punct c = true) p → p ≠ [] →
  span is_space (p ++ t) = 0.
Proof.
  intros Hp Hne. destruct p as [|c p]; [done|]. simpl.
  apply Forall_cons in Hp as [Hc _].
  destruct (match_separator_punct c [] Hc) as [n Hn].
  destruct (is_space c) eqn:E; [|done].
  unfold is_punct in Hc.
  apply orb_true_iff in Hc as [Hc|Hc];
    [apply orb_true_iff in Hc as [Hc|Hc]|];
    apply ascii_eqb_true in Hc as ->; discriminate E.
Qed.

(** Where the text begins with a separator, the pattern matches, and
    not the empty string. *)
Lemma match_separator_complete (sep t : str) :
  is_separator sep → ∃ n, match_separator (sep ++ t) = Some (S n).
Proof.
  intros [(w1 & p & w2 & -> & Hw1 & Hp & Hne & Hw2)
         | (w1 & w2 & -> & Hw1 & Hne1 & Hw2 & Hne2)];
    unfold match_separator.
  - rewrite <- !app_assoc, (span_app_all _ _ _ Hw1).
    rewrite (span_space_punct p (w2 ++ t) Hp Hne), Nat.add_0_r.
    rewrite drop_app_length', (span_app_all _ _ _ Hp).
    destruct p as [|c p]; [done|]. simpl length.
    rewrite (proj2 (Nat.ltb_lt 0 _)) by lia.
    match goal with
    | |- ∃ n, Some ?x = Some (S n) => exists (x - 1); f_equal; lia
    end.
  - rewrite <- !app_assoc, (span_app_all _ _ _ Hw1).
    change (span is_space (lit "and" ++ w2 ++ t)) with 0.
    rewrite Nat.add_0_r, drop_app_length'.
    change (span is_punct (lit "and" ++ w2 ++ t)) with 0.
    rewrite (startswith_app "and").
    change (drop 3 (lit "and" ++ w2 ++ t)) with (w2 ++ t).
    rewrite (span_app_all _ _ _ Hw2).
    destruct w1 as [|c1 w1]; [done|]. destruct w2 as [|c2 w2]; [done|].
    rewrite Nat.ltb_irrefl.
    rewrite (proj2 (Nat.ltb_lt 0 (length (c1 :: w1)))) by (simpl; lia).
    rewrite (proj2 (Nat.ltb_lt 0 (length (c2 :: w2) + span is_space t)))
      by (simpl; lia).
    cbn [andb]. simpl length.
    match goal with
    | |- ∃ n, Some ?x = Some (S n) => exists (x - 1); f_equal; lia
    end.
Qed.

(** No piece has a separator inside: wherever a suffix of the piece
    being read begins, the pattern did not match the text there. *)
Lemma re_split_from_no_separator (s : str) :
  ∀ skip cur,
    (skip = 0 ∨ cur = []) →
    (∀ u t, cur = u ++ t → t ≠ [] →
       ∀ n, match_separator (t ++ s) ≠ Some (S n)) →
    Forall (fun piece => ∀ u sep v, piece = u ++ sep ++ v → ¬ is_separator sep)
      (re_split_from skip cur s).
Proof.
  assert (Hemit : ∀ cur s,
             (∀ u t, cur = u ++ t → t ≠ [] →
                ∀ n, match_separator (t ++ s) ≠ Some (S n)) →
             ∀ u sep v, cur = u ++ sep ++ v → ¬ is_separator sep).
  { intros cur s0 Hcur u sep v E Hsep.
    destruct (match_separator_complete sep (v ++ s0) Hsep) as [n Hn].
    apply (Hcur u (sep ++ v) E) with n.
    - intros H. apply app_eq_nil in H as [-> _].
      destruct Hsep as [(w1 & p & w2 & Hs & _ & _ & Hne & _)
                       | (w1 & w2 & Hs & _ & Hne & _)].
      + symmetry in Hs. apply app_eq_nil in Hs as [_ Hs].
        by apply app_eq_nil in Hs as [? _].
      + symmetry in Hs. by apply app_eq_nil in Hs as [? _].
    - by rewrite <- app_assoc. }
  assert (Hgrow : ∀ cur c s,
             (∀ u t, cur = u ++ t → t ≠ [] →
                ∀ n, match_separator (t ++ c :: s) ≠ Some (S n)) →
             (∀ n, match_separator (c :: s) ≠ Some (S n)) →
             ∀ u t, cur ++ [c] = u ++ t → t ≠ [] →
                    ∀ n, match_separator (t ++ s) ≠ Some (S n)).
  { intros cur c s0 Hcur Hc u t E Hne n.
    destruct (decide (t = [])) as [->|Hne']; [done|].
    destruct (exists_last Hne') as (t0 & c0 & ->).
    rewrite app_assoc in E. apply app_inj_tail in E as [-> ->].
    rewrite <- app_assoc. simpl.
    destruct t0 as [|x t0]; [apply Hc|].
    by apply (Hcur u (x :: t0)). }
  induction s as [|c s IH]; intros skip cur Hsc Hcur.
  - simpl. constructor; [|constructor]. by apply (Hemit cur []).
  - destruct skip as [|k]; cbn [re_split_from].
    + destruct (match_separator (c :: s)) as [[|n]|] eqn:E.
      * apply IH; [by left|]. apply Hgrow; [done|]. by rewrite E.
      * constructor; [by apply (Hemit cur (c :: s))|].
        apply IH; [by right|]. intros u t Hu Hne.
        symmetry in Hu. apply app_eq_nil in Hu as [_ ->]. done.
      * apply IH; [by left|]. apply Hgrow; [done|]. by rewrite E.
    + destruct Hsc as [?| ->]; [done|].
      apply IH; [by right|]. intros u t Hu Hne.
      symmetry in Hu. apply app_eq_nil in Hu as [_ ->]. done.
Qed.

Lemma lstrip_suffix (s : str) : ∃ a, s = a ++ lstrip s.
Proof.
  induction s as [|c s [a IH]]; simpl; [by exists []|].
  destruct (is_space c); [|by exists []].
  exists (c :: a). simpl. by rewrite <- IH.
Qed.

Lemma strip_middle (s : str) : ∃ a b, s = a ++ strip s ++ b.
Proof.
  destruct (lstrip_suffix s) as [a Ha].
  destruct (lstrip_suffix (rev (lstrip s))) as [b Hb].
  exists a, (rev b). unfold strip, rstrip.
  rewrite <- rev_app_distr, <- Hb, rev_involutive. done.
Qed.

Lemma lstrip_split (s : str) : ∃ a, s = a ++ lstrip s ∧ blank a.
Proof.
  induction s as [|c s (a & IH & Ha)]; simpl.
  - exists []. split; [done|constructor].
  - destruct (is_space c) eqn:E.
    + exists (c :: a). split; [simpl; by rewrite <- IH|by constructor].
    + exists []. split; [done|constructor].
Qed.

Lemma strip_split (s : str) :
  ∃ a b, s = a ++ strip s ++ b ∧ blank a ∧ blank b.
Proof.
  destruct (lstrip_split s) as (a & Ha & Hba).
  destruct (lstrip_split (rev (lstrip s))) as (b & Hb & Hbb).
  exists a, (rev b). split; [|split; [done|by apply Forall_rev]].
  unfold strip, rstrip.
  rewrite <- rev_app_distr, <- Hb, rev_involutive. done.
Qed.

Lemma blank_forallb (s : str) : blank s → forallb is_space s = true.
Proof. induction 1 as [|c s Hc _ IH]; [done|]. simpl. by rewrite Hc, IH. Qed.

Lemma lstrip_forallb (s : str) : forallb is_space s = true → lstrip s = [].
Proof.
  induction s as [|c s IH]; [done|]. simpl.
  destruct (is_space c); [exact IH|done].
Qed.

Lemma strip_empty_iff (s : str) : strip s = [] ↔ forallb is_space s = true.
Proof.
  split.
  - intros E. destruct (strip_split s) as (a & b & Hs & Ha & Hb).
    rewrite E in Hs. rewrite Hs. simpl. rewrite forallb_app.
    by rewrite (blank_forallb a Ha), (blank_forallb b Hb).
  - intros H. unfold strip. by rewrite (lstrip_forallb s H).
Qed.

Lemma head_ok_head (s : str) (c : ascii) :
  head_ok s → head s = Some c → is_space c = false.
Proof. destruct s as [|x s]; simpl; [done|]. by intros H [= <-]. Qed.

Lemma last_ok_last (s : str) (c : ascii) :
  last_ok s → last s = Some c → is_space c = false.
Proof.
  unfold last_ok. destruct s as [|x s _] using rev_ind; [done|].
  rewrite rev_app_distr, last_snoc. simpl. by intros H [= <-].
Qed.

(** The fragments are, in order, the pieces that are not white space
    only, each without the white space around it. *)
Lemma fragments_of_pieces (parts : list str) :
  Forall2 (fun piece q =>
             q ≠ []
             ∧ (∀ c, head q = Some c → is_space c = false)
             ∧ (∀ c, last q = Some c → is_space c = false)
             ∧ ∃ u v, piece = u ++ q ++ v ∧ blank u ∧ blank v)
    (filter (fun piece => forallb is_space piece = false) parts)
    (map strip (filter (fun q => truthy (strip q) = true) parts)).
Proof.
  induction parts as [|p parts IH]; [constructor|].
  rewrite !filter_cons.
  destruct (forallb is_space p) eqn:E.
  - apply strip_empty_iff in E.
    destruct (decide (true = false)) as [?|_]; [done|].
    destruct (decide (truthy (strip p) = true)) as [H|_]; [|done].
    by rewrite E in H.
  - assert (Hne : strip p ≠ []).
    { intros H. apply strip_empty_iff in H. by rewrite H in E. }
    destruct (decide (false = false)) as [_|?]; [|done].
    destruct (decide (truthy (strip p) = true)) as [_|H].
    + cbn [map]. constructor; [|done].
      split; [done|].
      split; [intros c; apply head_ok_head, strip_head_ok|].
      split; [intros c; apply last_ok_last, strip_last_ok|].
      apply strip_split.
    + exfalso. apply H. by destruct (strip p).
Qed.

Lemma split_questions_filter (parts : list str) :
  map strip (filter (fun q => truthy (strip q) = true) parts)
  = filter (fun q => truthy q = true) (map strip parts).
Proof.
  induction parts as [|p parts IH]; [done|].
  cbn [map]. rewrite !filter_cons.
  destruct (decide (truthy (strip p) = true)); simpl; by rewrite IH.
Qed.

Lemma mapM_ok {A B} (f : A -> result B) (l : list A) (ys : list B) :
  Forall2 (fun x y => f x = Ok y) l ys → mapM f l = Ok ys.
Proof.
  induction 1 as [|x y l ys Hx _ IH]; [done|].
  cbn [mapM]. rewrite Hx. simpl. rewrite IH. done.
Qed.

(** C9: the pieces of [re.split] are separated, in the order of the
    text, by punctuation runs (with the white space around them) and by
    the word "and" between white space; the fragments of
    [split_questions] are, in that order, the pieces that are not white
    space only, each without the white space around it: a fragment is
    not empty, neither begins nor ends with a white-space character,
    and has no separator inside; and [ask] joins with "<br>" the answers
    of the fragments, in that order. *)
Theorem split_and_join (kb : knowledge_base) (text : str) :
  (∃ first rest,
     re_split text = first :: map snd rest
     ∧ text = weave first rest
     ∧ Forall (fun x => is_separator x.1) rest)
  ∧ split_questions text
    = filter (fun q => truthy q = true) (map strip (re_split text))
  ∧ Forall2 (fun piece q =>
               q ≠ []
               ∧ (∀ c, head q = Some c → is_space c = false)
               ∧ (∀ c, last q = Some c → is_space c = false)
               ∧ ∃ u v, piece = u ++ q ++ v ∧ blank u ∧ blank v)
      (filter (fun piece => forallb is_space piece = false) (re_split text))
      (split_questions text)
  ∧ Forall (fun q => q ≠ [] ∧ strip q = q
                     ∧ ∀ u sep v, q = u ++ sep ++ v → ¬ is_separator sep)
      (split_questions text)
  ∧ ∀ answers,
      strip text ≠ [] →
      Forall2 (fun q a => answer_query kb q = Ok a)
        (split_questions (strip text)) answers →
      ask kb (Some text) = Ok (join "<br>" answers).
Proof.
  split; [|split; [|split; [|split]]].
  - destruct (re_split_from_weave text 0 []) as (first & rest & E1 & E2 & E3);
      [lia|].
    exists first, rest. done.
  - apply split_questions_filter.
  - apply fragments_of_pieces.
  - unfold split_questions. rewrite split_questions_filter.
    apply Forall_forall. intros q [Hq Hin]%list_elem_of_filter.
    apply list_elem_of_fmap in Hin as (p & -> & Hp).
    split; [by destruct (strip p)|].
    split; [apply strip_fixed; [apply strip_head_ok|apply strip_last_ok]|].
    intros u sep v E.
    assert (H : Forall (fun piece => ∀ u sep v, piece = u ++ sep ++ v →
                                     ¬ is_separator sep) (re_split text)).
    { apply re_split_from_no_separator; [by left|].
      intros u0 t Hu Hne. symmetry in Hu.
      apply app_eq_nil in Hu as [_ ->]. done. }
    rewrite Forall_forall in H.
    destruct (strip_middle p) as (a & b & Hp').
    apply (H p Hp (a ++ u) sep (v ++ b)).
    rewrite Hp' at 1. rewrite E. by rewrite <- !app_assoc.
  - intros answers Hne Hall. unfold ask. simpl get.
    destruct (strip text) as [|c t] eqn:E; [done|]. simpl negb. cbn iota.
    by rewrite (mapM_ok _ _ _ Hall).
Qed.

Lemma split_and_join_witness :
  re_split "  Who is the principal ?  Who is the HOD of  CSE and  ECE ; "
  = [lit "  Who is the principal"; lit "Who is the HOD of  CSE"; lit "ECE";
     lit ""]
  ∧ split_questions
      "  Who is the principal ?  Who is the HOD of  CSE and  ECE ; "
    = [lit "Who is the principal"; lit "Who is the HOD of  CSE"; lit "ECE"]
  ∧ ask empty_kb (Some (lit " principal? xyzzy qwerty "))
    = Ok ("Principal: Not available" ++ "<br>" ++ fallback).
Proof.
  split; [vm_compute; reflexivity|].
  split; [vm_compute; reflexivity|].
  destruct (split_and_join empty_kb " principal? xyzzy qwerty ")
    as (_ & _ & _ & _ & H).
  apply (H [lit "Principal: Not available"; fallback]).
  - vm_compute. discriminate.
  - replace (split_questions (strip " principal? xyzzy qwerty "))
      with [lit "principal"; lit "xyzzy qwerty"] by (vm_compute; reflexivity).
    constructor; [vm_compute; reflexivity|].
    constructor; [vm_compute; reflexivity|].
    constructor.
Defined.

(* ================================================================== *)
(** * Further properties of the code *)

(** ** The similarity score *)

Lemma similarity_matches (a b : str) :
  ∃ m, similarity a b = calculate_ratio m (length a + length b)
       ∧ m ≤ length a ∧ m ≤ length b.
Proof.
  unfold similarity, ratio.
  destruct (get_matching_blocks_total a b) as (blocks & -> & H1 & H2 & _).
  exists (matches_of blocks). split; [done|]. lia.
Qed.

(** X1: two strings score 1.0 exactly when they are the same string. *)
Theorem similarity_one_iff (a b : str) : (similarity a b == 1)%Q ↔ a = b.
Proof.
  split; [apply similarity_one_inv|]. intros ->. apply similarity_refl.
Qed.

Lemma same_at_disjoint (a b : str) (i j : nat) :
  (∀ c, c ∈ a → c ∉ b) → same_at a b i j = false.
Proof.
  intros Hd. unfold same_at.
  destruct (a !! i) as [x|] eqn:Ex; [|done].
  destruct (b !! j) as [y|] eqn:Ey; [|done].
  destruct (Ascii.eqb x y) eqn:E; [|done].
  apply ascii_eqb_true in E as ->. exfalso.
  apply (Hd y); by eapply list_elem_of_lookup_2.
Qed.

Lemma get_matching_blocks_disjoint (a b : str) :
  (∀ c, c ∈ a → c ∉ b) → get_matching_blocks a b = Some [].
Proof.
  intros Hd. unfold get_matching_blocks.
  replace (2 * length a + 1) with (S (2 * length a)) by lia.
  cbn [blocks_loop].
  pose proof (find_longest_match_good a b (chain_b b) (chain_b_sound b)
                0 (length a) 0 (length b) ltac:(lia) ltac:(lia)) as Hg.
  destruct (find_longest_match a b (chain_b b) 0 (length a) 0 (length b))
    as [[i j] k].
  destruct k as [|k]; [by destruct (2 * length a)|]. exfalso.
  destruct Hg as (_ & _ & _ & _ & Hsame).
  specialize (Hsame 0 ltac:(lia)).
  by rewrite same_at_disjoint in Hsame.
Qed.

(** X2: strings without a common character score 0. *)
Theorem similarity_disjoint (a b : str) :
  (∀ c, c ∈ a → c ∉ b) → a ++ b ≠ [] → (similarity a b == 0)%Q.
Proof.
  intros Hd Hne. unfold similarity, ratio.
  rewrite get_matching_blocks_disjoint by done.
  assert (length a + length b ≠ 0).
  { intros E. apply Hne. destruct a, b; simpl in *; done || lia. }
  unfold calculate_ratio. simpl matches_of.
  destruct (length a + length b); done.
Qed.

Lemma similarity_disjoint_witness : (similarity "hostel" "cabin" == 0)%Q.
Proof.
  apply similarity_disjoint.
  - intros c Hc Hb. apply list_elem_of_In in Hc, Hb.
    cbv [lit list_ascii_of_string In] in Hc, Hb.
    repeat match goal with H : _ ∨ _ |- _ => destruct H as [H|H] end;
      subst; try discriminate; done.
  - discriminate.
Defined.

(** X3: against the empty string only the empty string scores: 1.0
    for two empty strings, 0 when exactly one of the two is empty. *)
Theorem similarity_with_empty (s : str) :
  (similarity [] s == if s is [] then 1 else 0)%Q
  ∧ (similarity s [] == if s is [] then 1 else 0)%Q.
Proof.
  destruct s as [|c s]; [by split|]. split.
  - apply (similarity_disjoint [] (c :: s)); [|done].
    by intros ? ?%elem_of_nil.
  - apply (similarity_disjoint (c :: s) []); [|done].
    by intros ? _ ?%elem_of_nil.
Qed.

(** X4: the score is at most twice the length of the shorter string
    over the sum of the two lengths. *)
Theorem similarity_length_bound (a b : str) :
  (similarity a b * inject_Z (Z.of_nat (length a + length b))
   <= inject_Z (2 * Z.of_nat (Nat.min (length a) (length b))))%Q.
Proof.
  destruct (similarity_matches a b) as (m & -> & Ha & Hb).
  unfold calculate_ratio. destruct (length a + length b) as [|n] eqn:E.
  - assert (length a = 0 ∧ length b = 0) as [-> ->] by lia. done.
  - unfold Qle, Qmult, inject_Z. cbn [Qnum Qden].
    rewrite Pos.mul_1_r, Z.mul_1_r, Zpos_of_nat_S. nia.
Qed.

(** ** Intent gating *)

Lemma fuzzy_off (q k : str) :
  200 * Nat.min (length q) (length k) ≤ 72 * (length q + length k) →
  str_in k q = false →
  Qgtb (similarity q k) (72 # 100) = false.
Proof.
  intros Hlen Hin. apply Qgtb_false.
  destruct (similarity_matches q k) as (m & -> & Ha & Hb).
  unfold calculate_ratio. destruct (length q + length k) as [|n] eqn:E.
  - assert (length k = 0) by lia. destruct k; [|done].
    by rewrite str_in_empty in Hin.
  - unfold Qle. cbn [Qnum Qden]. rewrite Zpos_of_nat_S. lia.
Qed.

(** X5: when the query and a keyword differ much in length (200 times
    the shorter length is at most 72 times the sum of the lengths, so
    for a query nearly twice as long as the keyword), the similarity
    test of [intent_match] cannot succeed, and the gate is plain
    substring containment. *)
Theorem intent_match_long_query (q : str) (keywords : list str) :
  Forall (fun k => 200 * Nat.min (length q) (length k)
                   ≤ 72 * (length q + length k)) keywords →
  intent_match q keywords = contains_any q keywords.
Proof.
  unfold intent_match, contains_any.
  induction 1 as [|k ks Hk _ IH]; [done|]. simpl. rewrite IH. f_equal.
  destruct (str_in k q) eqn:E; [done|]. simpl. by apply fuzzy_off.
Qed.

Lemma intent_match_long_query_witness :
  intent_match "what is the fee structure for this year"
    (words ["fee"; "exam fee"; "payment"; "tuition"])
  = contains_any "what is the fee structure for this year"
      (words ["fee"; "exam fee"; "payment"; "tuition"]).
Proof.
  apply intent_match_long_query.
  repeat (constructor; [cbv [lit list_ascii_of_string length]; lia|]).
  constructor.
Defined.

Lemma startswith_app_r (p s v : str) :
  startswith p s = true → startswith p (s ++ v) = true.
Proof.
  revert s. induction p as [|x p IH]; intros s; [done|].
  destruct s as [|y s]; [done|]. simpl.
  intros [-> ?]%andb_true_iff. simpl. by apply IH.
Qed.

Lemma str_in_app_r (k q v : str) :
  str_in k q = true → str_in k (q ++ v) = true.
Proof.
  induction q as [|c q IH].
  - simpl. rewrite orb_false_r. destruct k; [|done]. intros _.
    apply str_in_empty.
  - cbn [str_in app]. intros [H|H]%orb_true_iff.
    + change (c :: q ++ v) with ((c :: q) ++ v).
      by rewrite (startswith_app_r _ _ _ H).
    + rewrite (IH H). apply orb_true_r.
Qed.

Lemma str_in_app_l (k u q : str) :
  str_in k q = true → str_in k (u ++ q) = true.
Proof.
  intros H. induction u as [|c u IH]; [done|].
  cbn [str_in app]. rewrite IH. apply orb_true_r.
Qed.

(** X6: a keyword that occurs in a query gates the intent, and goes on
    gating it whatever text is put before and after the query. *)
Theorem contains_any_gates (q u v : str) (keywords : list str) :
  contains_any q keywords = true →
  intent_match (u ++ q ++ v) keywords = true.
Proof.
  unfold contains_any, intent_match. rewrite !existsb_exists.
  intros (k & Hk & Hin). exists k. split; [done|].
  by rewrite (str_in_app_l _ _ _ (str_in_app_r _ _ v Hin)).
Qed.

Lemma contains_any_gates_witness :
  intent_match ("please, " ++ "library" ++ " opening hours today")
    (words ["library"; "canteen"; "hostel"; "facility"; "facilities"])
  = true.
Proof.
  apply contains_any_gates. vm_compute. reflexivity.
Defined.

(** ** Normalisation of the query *)

(** X7: the normal form of a query is lower-case and carries no white
    space at either end: [lower] and [strip] leave it unchanged. *)
Theorem normalize_text_lower_trimmed (s : str) :
  lower (normalize_text s) = normalize_text s
  ∧ strip (normalize_text s) = normalize_text s.
Proof.
  destruct (normalize_text_clean s) as (H1 & H2 & H3).
  split; [by apply is_lower_fixed | by apply strip_fixed].
Qed.

Lemma is_space_lower_char (c : ascii) : is_space (lower_char c) = is_space c.
Proof. destruct c as [[] [] [] [] [] [] [] []]; reflexivity. Qed.

Lemma lstrip_lower (s : str) : lstrip (lower s) = lower (lstrip s).
Proof.
  unfold lower. induction s as [|c s IH]; [done|]. simpl.
  rewrite is_space_lower_char. by destruct (is_space c).
Qed.

Lemma lower_rev (s : str) : lower (rev s) = rev (lower s).
Proof. unfold lower. apply map_rev. Qed.

Lemma strip_lower (s : str) : strip (lower s) = lower (strip s).
Proof.
  unfold strip, rstrip.
  by rewrite lstrip_lower, <- lower_rev, lstrip_lower, <- lower_rev.
Qed.

Lemma lstrip_blank (s : str) : blank s → lstrip s = [].
Proof. induction 1 as [|c s Hc _ IH]; simpl; [done|]. by rewrite Hc. Qed.

Lemma lstrip_blank_app (u s : str) : blank u → lstrip (u ++ s) = lstrip s.
Proof. induction 1 as [|c u Hc _ IH]; simpl; [done|]. by rewrite Hc. Qed.

Lemma lstrip_app (t v : str) :
  lstrip (t ++ v) = match lstrip t with [] => lstrip v | _ :: _ => lstrip t ++ v end.
Proof.
  induction t as [|c t IH]; simpl; [done|]. by destruct (is_space c).
Qed.

Lemma blank_rev (s : str) : blank s → blank (rev s).
Proof. apply Forall_rev. Qed.

Lemma rstrip_blank_app (s v : str) : blank v → rstrip (s ++ v) = rstrip s.
Proof.
  intros Hv. unfold rstrip.
  by rewrite rev_app_distr, (lstrip_blank_app _ _ (blank_rev _ Hv)).
Qed.

Lemma strip_padded (u s v : str) :
  blank u → blank v → strip (u ++ s ++ v) = strip s.
Proof.
  intros Hu Hv. unfold strip.
  rewrite (lstrip_blank_app _ _ Hu), lstrip_app.
  destruct (lstrip s) as [|c t] eqn:E.
  - by rewrite (lstrip_blank _ Hv).
  - by apply rstrip_blank_app.
Qed.

(** X8: a query made of white space only (or of nothing) has the empty
    normal form. *)
Theorem normalize_text_blank (s : str) : blank s → normalize_text s = [].
Proof.
  intros Hs. unfold normalize_text. rewrite strip_lower.
  pose proof (strip_padded s [] [] Hs ltac:(constructor)) as E.
  rewrite app_nil_r in E. simpl app in E. rewrite E. reflexivity.
Qed.

Lemma normalize_text_blank_witness :
  normalize_text [" "%char; "009"%char; "010"%char] = [].
Proof.
  apply normalize_text_blank. repeat constructor.
Defined.

(** X9: the answer depends on the query only through its stripped,
    lower-cased text: queries that differ in letter case and in the
    white space around them get the same answer. *)
Theorem answer_query_ignores_case_and_padding (kb : knowledge_base)
    (query query' : str) :
  lower (strip query) = lower (strip query') →
  answer_query kb query = answer_query kb query'.
Proof.
  intros H. unfold answer_query, normalize_text.
  by rewrite !strip_lower, H.
Qed.

Lemma answer_query_ignores_case_and_padding_witness :
  answer_query (with_departments [dept_ece; dept_cse]) "  CSE Hod "
  = answer_query (with_departments [dept_ece; dept_cse]) "cse hod".
Proof.
  apply answer_query_ignores_case_and_padding. vm_compute. reflexivity.
Defined.

(** ** The conditions of the blocks *)

Lemma intent_match_false (q : str) (keywords : list str) :
  intent_match q keywords = false
  ↔ ∀ k, In k keywords →
         str_in k q || Qgtb (similarity q k) (72 # 100) = false.
Proof.
  unfold intent_match. rewrite <- not_true_iff_false, existsb_exists. split.
  - intros H k Hk. apply not_true_iff_false. intros E. apply H. by exists k.
  - intros H (k & Hk & E). by rewrite (H k Hk) in E.
Qed.

(** X10: the test "and not HOD/faculty/professor/staff" in the condition
    of the departments block never decides anything: whenever the HOD
    and the faculty blocks, which come first and always return, have
    not matched, the departments block is gated by its keyword list
    alone. *)
Theorem departments_exclusion_redundant (kb : knowledge_base) (q : str) :
  gate kb Hod q = false → gate kb Faculty q = false →
  gate kb Departments q
  = intent_match q (words ["department"; "cse"; "ece"; "computer";
                           "electronics"]).
Proof.
  cbn [gate]. intros Hh Hf.
  rewrite intent_match_false in Hh, Hf.
  assert (E : intent_match q (words ["hod"; "faculty"; "professor"; "staff"])
              = false).
  { apply intent_match_false. intros k Hk.
    destruct Hk as [<-|[<-|[<-|[<-|[]]]]].
    - apply Hh. by left.
    - apply Hf. by left.
    - apply Hf. right. by left.
    - apply Hf. right. right. by left. }
  rewrite E. apply andb_true_r.
Qed.

Lemma departments_exclusion_redundant_witness :
  gate empty_kb Departments "which courses does ece offer"
  = intent_match "which courses does ece offer"
      (words ["department"; "cse"; "ece"; "computer"; "electronics"]).
Proof.
  apply departments_exclusion_redundant; vm_compute; reflexivity.
Defined.

(** ** Ties in the similarity phase *)

Section first_best_facts.
Context {A : Type} (keys : A -> list str) (q : str).

Lemma score_keys_cases (x : A) :
  ∀ (ks : list str) (st : option A * Q),
    (foldl (score_key q x) st ks = st
     ∧ ∀ key, key ∈ ks → (similarity q key <= st.2)%Q)
    ∨ ((foldl (score_key q x) st ks).1 = Some x
       ∧ (st.2 < (foldl (score_key q x) st ks).2)%Q
       ∧ (∃ key, key ∈ ks
                 ∧ (foldl (score_key q x) st ks).2 = similarity q key)
       ∧ ∀ key, key ∈ ks →
           (similarity q key <= (foldl (score_key q x) st ks).2)%Q).
Proof.
  induction ks as [|k ks IH]; intros st; simpl.
  - left. split; [done|]. by intros ? ?%elem_of_nil.
  - destruct (Qgtb (similarity q k) st.2) eqn:E.
    + assert (E1 : score_key q x st k = (Some x, similarity q k)).
      { unfold score_key. by rewrite E. }
      apply Qgtb_true in E. rewrite E1.
      destruct (IH (Some x, similarity q k)) as [[-> Hle] | (H1 & H2 & H3 & H4)].
      * right. simpl in *. split; [done|]. split; [done|].
        split; [exists k; split; [by left|done]|].
        intros key [->|Hin]%elem_of_cons; [apply Qle_refl|by apply Hle].
      * right. simpl in H2. split; [done|].
        split; [by eapply Qlt_trans|].
        split.
        { destruct H3 as (key & Hin & Hkey). exists key. split; [by right|done]. }
        intros key [->|Hin]%elem_of_cons; [by apply Qlt_le_weak|by apply H4].
    + assert (E1 : score_key q x st k = st).
      { unfold score_key. by rewrite E. }
      apply Qgtb_false in E. rewrite E1.
      destruct (IH st) as [[-> Hle] | (H1 & H2 & H3 & H4)].
      * left. split; [done|].
        intros key [->|Hin]%elem_of_cons; [done|by apply Hle].
      * right. split; [done|]. split; [done|].
        split.
        { destruct H3 as (key & Hin & Hkey). exists key. split; [by right|done]. }
        intros key [->|Hin]%elem_of_cons; [|by apply H4].
        eapply Qle_trans; [exact E|by apply Qlt_le_weak].
Qed.

Lemma score_candidates_cases :
  ∀ (cands : list A) (st : option A * Q),
    (foldl (score_candidate keys q) st cands = st
     ∧ ∀ x key, x ∈ cands → key ∈ keys x →
                (similarity q key <= st.2)%Q)
    ∨ (∃ x pre post key,
         (foldl (score_candidate keys q) st cands).1 = Some x
         ∧ cands = pre ++ x :: post ∧ key ∈ keys x
         ∧ (foldl (score_candidate keys q) st cands).2 = similarity q key
         ∧ (st.2 < similarity q key)%Q
         ∧ (∀ x' key', x' ∈ pre → key' ∈ keys x' →
              (similarity q key' < similarity q key)%Q)
         ∧ (∀ x' key', x' ∈ cands → key' ∈ keys x' →
              (similarity q key' <= similarity q key)%Q)).
Proof.
  induction cands as [|c cs IH]; intros st.
  - left. split; [done|]. by intros ? ? ?%elem_of_nil.
  - cbn [foldl].
    pose proof (score_keys_cases c (keys c) st) as Hc.
    change (foldl (score_key q c) st (keys c))
      with (score_candidate keys q st c) in Hc.
    set (st1 := score_candidate keys q st c) in *.
    destruct Hc as [[E Hle] | (H1 & H2 & (kc & Hkc & Ekc) & H4)].
    + rewrite E.
      destruct (IH st) as [[-> Hle'] | (x & pre & post & key & I1 & -> & I3
                                         & I4 & I5 & I6 & I7)].
      * left. split; [done|].
        intros x key [->|Hin]%elem_of_cons Hkey; [by apply Hle|].
        by apply (Hle' x).
      * right. exists x, (c :: pre), post, key.
        split; [done|]. split; [done|]. split; [done|]. split; [done|].
        split; [done|]. split.
        -- intros x' key' [->|Hin]%elem_of_cons Hkey'.
           ++ eapply Qle_lt_trans; [by apply Hle|done].
           ++ by apply (I6 x').
        -- intros x' key' [->|Hin]%elem_of_cons Hkey'.
           ++ apply Qlt_le_weak. eapply Qle_lt_trans; [by apply Hle|done].
           ++ by apply (I7 x').
    + destruct (IH st1) as [[-> Hle'] | (x & pre & post & key & I1 & -> & I3
                                          & I4 & I5 & I6 & I7)].
      * right. exists c, [], cs, kc. rewrite <- Ekc.
        split; [done|]. split; [done|]. split; [done|]. split; [done|].
        split; [done|]. split; [by intros ? ? ?%elem_of_nil|].
        intros x' key' [->|Hin]%elem_of_cons Hkey'; [by apply H4|].
        by apply (Hle' x').
      * right. exists x, (c :: pre), post, key.
        split; [done|]. split; [done|]. split; [done|]. split; [done|].
        split; [by eapply Qlt_trans|]. split.
        -- intros x' key' [->|Hin]%elem_of_cons Hkey'.
           ++ eapply Qle_lt_trans; [by apply H4|done].
           ++ by apply (I6 x').
        -- intros x' key' [->|Hin]%elem_of_cons Hkey'.
           ++ apply Qlt_le_weak. eapply Qle_lt_trans; [by apply H4|done].
           ++ by apply (I7 x').
Qed.

Lemma accept_first_best (threshold : Q) (cands : list A) (x : A) :
  accept threshold (best_match keys q cands) = Some x →
  first_best keys q cands x.
Proof.
  unfold accept, best_match.
  destruct (score_candidates_cases cands (None, 0%Q))
    as [[-> _] | (y & pre & post & key & I1 & -> & I3 & I4 & I5 & I6 & I7)].
  - simpl. by destruct (Qgtb _ _).
  - destruct (Qgtb _ _); [|done]. rewrite I1. intros [= <-].
    by exists pre, post, key.
Qed.
End first_best_facts.

(** X11: ties go to the earliest candidate.  What the similarity phase
    of a finder returns is the first candidate, in the order of the
    knowledge base, that reaches the best score: every candidate before
    it scores strictly lower. *)
Theorem finders_return_first_best (kb : knowledge_base) (q : str) :
  (∀ ev, find_calendar_event kb q = Some ev →
         first_best ev_keys q (CAL_EVENTS kb) ev)
  ∧ (∀ qa, find_semantic_qna kb q = Some qa →
           first_best qa_keys q (SEM_QNA kb) qa)
  ∧ (∀ s, find_subject_by_name_or_code kb q = Some s →
          first_best subj_keys q (SUBJECTS kb) s)
  ∧ (∀ d, first_dept_in_query q (departments kb) = None →
          find_department kb q = Some d →
          first_best dept_keys q (departments kb) d).
Proof.
  repeat split; try (intros x; apply accept_first_best).
  intros d H. unfold find_department. rewrite H. apply accept_first_best.
Qed.

Lemma finders_return_first_best_witness :
  first_best qa_keys "when is cie-1"
    [qna_project; qna_cie; qna_cie_again] qna_cie.
Proof.
  destruct (finders_return_first_best
              (with_qna [qna_project; qna_cie; qna_cie_again])
              "when is cie-1") as (_ & H & _).
  apply H. vm_compute. reflexivity.
Defined.

(** ** The row of a day *)

(** X12: [find_day_timetable] returns the first row whose day is the
    asked one, letter case apart, and nothing when there is no such
    row; a row without a [day] key stands for the empty day name. *)
Theorem find_day_timetable_first (tt_list : list timetable_row)
    (day_name : str) :
  first_row_spec day_name tt_list (find_day_timetable tt_list day_name).
Proof.
  induction tt_list as [|r l IH]; simpl; [by constructor|].
  case_bool_decide as E.
  - exists [], l. by repeat split.
  - unfold first_row_spec in *.
    destruct (find_day_timetable l day_name) as [row|].
    + destruct IH as (pre & post & -> & H1 & H2).
      exists (r :: pre), post. repeat split; [done|]. by constructor.
    + by constructor.
Qed.

(** ** When no exception is raised *)

Lemma find_department_member (kb : knowledge_base) (q : str) (d : department) :
  find_department kb q = Some d → d ∈ departments kb.
Proof.
  unfold find_department.
  pose proof (first_dept_in_query_spec q (departments kb)) as H1.
  destruct (first_dept_in_query q (departments kb)) as [d'|].
  - intros [= <-]. destruct H1 as (pre & post & -> & _).
    apply elem_of_app. right. by left.
  - intros E.
    pose proof (accept_best_match dept_keys q (6 # 10) (departments kb)
                  ltac:(done)) as H2.
    rewrite E in H2. by destruct H2.
Qed.

Lemma resolve_department_member (kb : knowledge_base) (q : str)
    (d : department) :
  resolve_department kb q = Some d → d ∈ departments kb.
Proof.
  unfold resolve_department.
  destruct (find_department kb q) as [d'|] eqn:E; [|done].
  destruct (dept_true d'); [|done]. intros [= <-].
  by apply find_department_member in E.
Qed.

Lemma faculty_names_ok (fs : list faculty_member) :
  Forall (fun f => is_Some (fm_name f)) fs →
  ∃ names, mapM (fun f => subscript (fm_name f)) fs = Ok names.
Proof.
  induction 1 as [|f fs [n Hn] _ [names IH]]; [by exists []|].
  exists (n :: names). cbn [mapM]. rewrite Hn. simpl. by rewrite IH.
Qed.

Lemma split_from_nonempty (s : str) :
  ∀ cur, cur ≠ [] ∨ forallb is_space s = false → split_from cur s ≠ [].
Proof.
  induction s as [|c s IH]; intros cur H; simpl.
  - destruct H as [H|H]; [by destruct cur|done].
  - destruct (is_space c) eqn:E.
    + destruct cur; [|done]. apply IH. right.
      destruct H as [H|H]; [done|]. simpl in H. by rewrite E in H.
    + apply IH. left. by destruct cur.
Qed.

Lemma forallb_is_space_lower (s : str) :
  forallb is_space (lower s) = forallb is_space s.
Proof.
  unfold lower. induction s as [|c s IH]; [done|]. simpl.
  by rewrite is_space_lower_char, IH.
Qed.

Lemma lab_in_query_ok (q : str) (l : lab) :
  named_lab l → ∃ hit, lab_in_query q l = Ok hit.
Proof.
  intros Hl. unfold lab_in_query.
  destruct (truthy (lower (get (lab_name l) ""))) eqn:Et; [|by eexists].
  destruct (str_in _ q); [by eexists|]. cbn [negb].
  destruct Hl as [Hl|Hl]; [by rewrite Hl in Et|].
  destruct (split _) as [|w ws] eqn:Es.
  - exfalso. apply (split_from_nonempty _ [] (or_intror
              (eq_trans (forallb_is_space_lower _) Hl))). exact Es.
  - simpl. by eexists.
Qed.

Lemma lab_in_query_hit (q : str) (l : lab) :
  lab_in_query q l = Ok true → is_Some (lab_name l).
Proof.
  unfold lab_in_query. destruct (lab_name l); [by eexists|]. simpl. done.
Qed.

Lemma first_lab_in_query_ok (q : str) (ls : list lab) :
  Forall named_lab ls →
  first_lab_in_query q ls = Ok None
  ∨ ∃ l, first_lab_in_query q ls = Ok (Some l) ∧ is_Some (lab_name l).
Proof.
  induction 1 as [|l ls Hl _ IH]; [by left|]. cbn [first_lab_in_query].
  destruct (lab_in_query_ok q l Hl) as [hit Hhit]. rewrite Hhit. simpl.
  destruct hit; [|done]. right. exists l. split; [done|].
  by apply (lab_in_query_hit q).
Qed.

(** Every block that returns, returns a string. *)
Lemma handler_ok (kb : knowledge_base) (i : intent) (q : str) (r : result str) :
  names_present kb → handler kb i q = Some r → ∃ answer, r = Ok answer.
Proof.
  intros [Hd Hl]. rewrite Forall_forall in Hd.
  assert (Hres : ∀ d, resolve_department kb q = Some d →
                      ∃ n, dept_name d = Some n
                           ∧ Forall (fun f => is_Some (fm_name f))
                               (get (dept_faculty d) [])).
  { intros d Hr. apply resolve_department_member, Hd in Hr as [[n Hn] Hf].
    by exists n. }
  destruct i; cbn [handler]; try (intros [= <-]; by eexists).
  - destruct (find_semantic_qna kb q); [|done]. simpl.
    intros [= <-]. by eexists.
  - destruct (find_calendar_event kb q) as [ev|]; [|done].
    destruct (ev_true ev); [|done]. intros [= <-]. by eexists.
  - intros [= <-]. unfold hod_answer.
    destruct (resolve_department kb q) as [d|] eqn:E; [|by eexists].
    destruct (Hres d eq_refl) as (n & -> & _). simpl. by eexists.
  - intros [= <-]. unfold faculty_answer.
    destruct (resolve_department kb q) as [d|] eqn:E; [|by eexists].
    destruct (Hres d eq_refl) as (n & -> & Hf).
    destruct (faculty_names_ok _ Hf) as [names ->]. simpl. by eexists.
  - intros [= <-]. unfold fees_answer.
    destruct (resolve_department kb q) as [d|] eqn:E; [|by eexists].
    destruct (Hres d eq_refl) as (n & -> & _).
    destruct (if_true _), (if_true _); simpl; by eexists.
  - unfold facilities_answer.
    destruct (find (facility_in_query q) (facilities kb)) as [f|] eqn:E.
    + apply find_some in E as [_ E].
      apply facility_in_query_named in E as [n ->].
      intros [= <-]. simpl. by eexists.
    + destruct (map _ (facilities kb)); [done|]. intros [= <-]. by eexists.
  - unfold labs_answer.
    destruct (first_lab_in_query_ok q (labs kb) Hl) as [-> | (l & -> & [n ->])].
    + destruct (map _ (labs kb)); [done|]. intros [= <-]. by eexists.
    + intros [= <-]. simpl. by eexists.
  - unfold directions_answer.
    destruct (resolve_department kb q) as [d|] eqn:E.
    + destruct (Hres d eq_refl) as (n & -> & _).
      intros [= <-]. simpl. by eexists.
    + destruct (find (facility_in_query q) (facilities kb)) as [f|] eqn:E';
        [|done].
      apply find_some in E' as [_ E'].
      apply facility_in_query_named in E' as [n ->].
      intros [= <-]. simpl. by eexists.
Qed.

Lemma route_ok (kb : knowledge_base) (q : str) (chain : list intent) :
  names_present kb → ∃ answer, route kb chain q = Ok answer.
Proof.
  intros Hkb. induction chain as [|i chain IH]; [by eexists|].
  rewrite route_cons. destruct (gate kb i q); [|done].
  destruct (handler kb i q) as [r|] eqn:E; [|done].
  by apply (handler_ok kb i q).
Qed.

Lemma mapM_all_ok {A B} (f : A -> result B) (l : list A) :
  (∀ x, ∃ y, f x = Ok y) → ∃ ys, mapM f l = Ok ys.
Proof.
  intros Hf. induction l as [|x l [ys IH]]; [by exists []|].
  destruct (Hf x) as [y Hy]. exists (y :: ys).
  cbn [mapM]. rewrite Hy. simpl. by rewrite IH.
Qed.

(** X13: on the inputs of this model, that is a knowledge base whose
    keys are missing or hold a value of the expected type (a string, a
    list, a record) and a question that is missing or a string, the
    only exceptions are the [KeyError] and [IndexError] of the
    unguarded subscripts.  When every department record has a name,
    every faculty member has a name, and every lab name that is not
    empty has a character that is not white space, neither occurs:
    [answer_query] and [ask] return a string for every such input.
    The other keys of the knowledge base may all be missing. *)
Theorem no_exception_when_names_present (kb : knowledge_base) :
  names_present kb →
  (∀ query, ∃ answer, answer_query kb query = Ok answer)
  ∧ (∀ question, ∃ answer, ask kb question = Ok answer).
Proof.
  intros Hkb.
  assert (H : ∀ query, ∃ answer, answer_query kb query = Ok answer).
  { intros query. by apply route_ok. }
  split; [done|]. intros question. unfold ask.
  destruct (negb _); [by eexists|].
  destruct (mapM_all_ok (answer_query kb)
              (split_questions (strip (get question ""))) H) as [ys ->].
  simpl. by eexists.
Qed.

Lemma no_exception_when_names_present_witness :
  (∀ query, ∃ answer, answer_query sample_kb query = Ok answer)
  ∧ (∀ question, ∃ answer, ask sample_kb question = Ok answer).
Proof.
  apply no_exception_when_names_present. split.
  - repeat constructor; by eexists.
  - constructor; [right; reflexivity|constructor].
Defined.

(** ** The [/ask] handler at its edges *)

Lemma strip_blank (s : str) : blank s → strip s = [].
Proof.
  intros Hs. pose proof (strip_padded s [] [] Hs ltac:(constructor)) as E.
  by rewrite app_nil_r in E.
Qed.

(** X14: a request without a question, or whose question is white
    space only, is answered "Please type a question." and no fragment
    is resolved. *)
Theorem ask_blank (kb : knowledge_base) (question : option str) :
  blank (get question "") → ask kb question = Ok (lit "Please type a question.").
Proof. intros H. unfold ask. by rewrite (strip_blank _ H). Qed.

Lemma ask_blank_witness :
  ask empty_kb None = Ok (lit "Please type a question.")
  ∧ ask empty_kb (Some (lit "   ")) = Ok (lit "Please type a question.").
Proof.
  split; apply ask_blank; repeat constructor.
Defined.

Lemma re_split_from_chars (P : ascii -> Prop) (s : str) :
  ∀ skip cur, Forall P s → Forall P cur →
              Forall (Forall P) (re_split_from skip cur s).
Proof.
  induction s as [|c s IH]; intros skip cur Hs Hcur.
  - simpl. by repeat constructor.
  - apply Forall_cons in Hs as [Hc Hs].
    destruct skip as [|n]; cbn [re_split_from]; [|by apply IH].
    destruct (match_separator (c :: s)) as [[|n]|].
    + apply IH; [done|]. apply Forall_app. by repeat constructor.
    + constructor; [done|]. by apply IH.
    + apply IH; [done|]. apply Forall_app. by repeat constructor.
Qed.

Lemma single_punct_separator (c : ascii) :
  is_punct c = true → is_separator [c].
Proof.
  intros Hc. left. exists [], [c], [].
  split; [done|]. split; [constructor|]. split; [by repeat constructor|].
  split; [done|constructor].
Qed.

Lemma piece_no_punct (text piece : str) :
  piece ∈ re_split text → Forall (fun c => is_punct c = false) piece.
Proof.
  intros Hin.
  assert (H : Forall (fun piece => ∀ u sep v, piece = u ++ sep ++ v →
                                   ¬ is_separator sep) (re_split text)).
  { apply re_split_from_no_separator; [by left|].
    intros u0 t Hu Hne. symmetry in Hu.
    apply app_eq_nil in Hu as [_ ->]. done. }
  rewrite Forall_forall in H. specialize (H piece Hin).
  apply Forall_forall. intros c Hc.
  destruct (is_punct c) eqn:E; [|done]. exfalso.
  apply list_elem_of_split in Hc as (u & v & ->).
  apply (H u [c] v); [done|]. by apply single_punct_separator.
Qed.

Lemma blank_of_chars (s : str) :
  Forall (fun c => is_space c = true ∨ is_punct c = true) s →
  Forall (fun c => is_punct c = false) s → blank s.
Proof.
  intros H1 H2. unfold blank. rewrite Forall_forall in *.
  intros c Hc. destruct (H1 c Hc) as [?|E]; [done|].
  by rewrite (H2 c Hc) in E.
Qed.

Lemma split_questions_nil (text : str) :
  Forall (fun c => is_space c = true ∨ is_punct c = true) text →
  split_questions text = [].
Proof.
  intros Htext. unfold split_questions.
  pose proof (re_split_from_chars _ text 0 [] Htext ltac:(constructor)) as H.
  fold (re_split text) in H.
  assert (Hb : Forall blank (re_split text)).
  { apply Forall_forall. intros piece Hin. rewrite Forall_forall in H.
    apply blank_of_chars; [by apply H|by apply (piece_no_punct text)]. }
  clear H. induction Hb as [|p ps Hp _ IH]; [done|].
  rewrite filter_cons. rewrite (strip_blank _ Hp). simpl.
  apply IH.
Qed.

(** X15: a question made of punctuation ([.], [?], [;]) and white space
    only, with at least one punctuation character, has no fragment, and
    [ask] answers with the empty string. *)
Theorem ask_only_punctuation (kb : knowledge_base) (text : str) :
  Forall (fun c => is_space c = true ∨ is_punct c = true) text →
  strip text ≠ [] →
  split_questions (strip text) = [] ∧ ask kb (Some text) = Ok [].
Proof.
  intros Htext Hne.
  assert (E : split_questions (strip text) = []).
  { apply split_questions_nil.
    destruct (strip_middle text) as (a & b & Hab).
    rewrite Hab in Htext.
    apply Forall_app in Htext as [_ Htext].
    by apply Forall_app in Htext as [Htext _]. }
  split; [done|]. unfold ask. simpl get.
  destruct (strip text); [done|]. simpl negb. cbn iota.
  by rewrite E.
Qed.

Lemma ask_only_punctuation_witness :
  split_questions (strip " ?? . ") = [] ∧ ask sample_kb (Some (lit " ?? . ")) = Ok [].
Proof.
  apply ask_only_punctuation.
  - repeat constructor; (by left) || (by right).
  - vm_compute. discriminate.
Defined.

Lemma re_split_from_free (s : str) :
  ∀ cur, separator_free s = true → re_split_from 0 cur s = [cur ++ s].
Proof.
  induction s as [|c s IH]; intros cur H.
  - simpl. by rewrite app_nil_r.
  - cbn [re_split_from separator_free] in *.
    destruct (match_separator (c :: s)) as [[|n]|]; try done;
      rewrite IH by done; by rewrite <- app_assoc.
Qed.

Lemma split_questions_free (s : str) :
  separator_free s = true → strip s = s → s ≠ [] → split_questions s = [s].
Proof.
  intros Hfree Hstrip Hne. unfold split_questions, re_split.
  rewrite (re_split_from_free s [] Hfree). simpl app.
  rewrite filter_cons, Hstrip.
  destruct (decide (truthy s = true)) as [|Hn]; [by simpl; rewrite Hstrip|].
  by destruct s.
Qed.

(** X16: a question in which the pattern matches nowhere is one
    fragment: [ask] returns what [answer_query] returns for it, an
    exception included. *)
Theorem ask_single_question (kb : knowledge_base) (text : str) :
  strip text ≠ [] → separator_free (strip text) = true →
  ask kb (Some text) = answer_query kb text.
Proof.
  intros Hne Hfree. unfold ask. simpl get.
  destruct (strip text) as [|c t] eqn:E; [done|]. simpl negb. cbn iota.
  rewrite <- E in *.
  rewrite (split_questions_free (strip text) Hfree); [|
    apply strip_fixed; [apply strip_head_ok|apply strip_last_ok] | by rewrite E].
  cbn [mapM].
  assert (Ha : answer_query kb (strip text) = answer_query kb text).
  { unfold answer_query, normalize_text. rewrite !strip_lower.
    by rewrite (strip_fixed (strip text) (strip_head_ok _) (strip_last_ok _)). }
  rewrite Ha. by destruct (answer_query kb text).
Qed.

Lemma ask_single_question_witness :
  ask kb_unnamed_department (Some (lit " CSE HOD "))
  = answer_query kb_unnamed_department " CSE HOD ".
Proof.
  apply ask_single_question; vm_compute; [discriminate|reflexivity].
Defined.

Lemma separator_free_inside (s : str) :
  (∀ u sep v, s = u ++ sep ++ v → ¬ is_separator sep) →
  separator_free s = true.
Proof.
  induction s as [|c s IH]; intros H; [done|]. cbn [separator_free].
  destruct (match_separator (c :: s)) as [[|n]|] eqn:E.
  - apply IH. intros u sep v ->. apply (H (c :: u) sep v). done.
  - exfalso. apply match_separator_sound in E as [_ Hsep].
    apply (H [] (take (S n) (c :: s)) (drop (S n) (c :: s))); [|done].
    by rewrite app_nil_l, take_drop.
  - apply IH. intros u sep v ->. apply (H (c :: u) sep v). done.
Qed.

(** X17: the fragments are final: splitting a fragment of
    [split_questions] again gives back that fragment alone. *)
Theorem split_questions_stable (text q : str) :
  q ∈ split_questions text → split_questions q = [q].
Proof.
  intros Hq. unfold split_questions in Hq. rewrite split_questions_filter in Hq.
  apply list_elem_of_filter in Hq as [Hne Hin].
  apply list_elem_of_fmap in Hin as (p & -> & Hp).
  apply split_questions_free.
  - apply separator_free_inside. intros u sep v E.
    assert (H : Forall (fun piece => ∀ u sep v, piece = u ++ sep ++ v →
                                     ¬ is_separator sep) (re_split text)).
    { apply re_split_from_no_separator; [by left|].
      intros u0 t Hu Hne0. symmetry in Hu.
      apply app_eq_nil in Hu as [_ ->]. done. }
    rewrite Forall_forall in H.
    destruct (strip_middle p) as (a & b & Hp').
    apply (H p Hp (a ++ u) sep (v ++ b)).
    rewrite Hp' at 1. rewrite E. by rewrite <- !app_assoc.
  - apply strip_fixed; [apply strip_head_ok|apply strip_last_ok].
  - by destruct (strip p).
Qed.

Lemma split_questions_stable_witness :
  split_questions "Who is the HOD of CSE" = [lit "Who is the HOD of CSE"].
Proof.
  apply (split_questions_stable
           "Who is the principal? Who is the HOD of CSE and ECE ;").
  vm_compute. right. left.
Defined.

Lemma mapM_raises {A B} (f : A -> result B) (pre post : list A) (x : A)
    (e : exn) :
  Forall (fun x' => ∃ y, f x' = Ok y) pre → f x = Raise e →
  mapM f (pre ++ x :: post) = Raise e.
Proof.
  intros Hpre Hx. induction Hpre as [|x' pre [y Hy] _ IH]; cbn [mapM app].
  - by rewrite Hx.
  - rewrite Hy. simpl. by rewrite IH.
Qed.

(** X18: [ask] resolves the fragments in order and stops at the first
    one for which [answer_query] raises: the exception leaves [ask],
    and the answers of the fragments before it are lost. *)
Theorem ask_raises (kb : knowledge_base) (text : str)
    (pre post : list str) (q : str) (e : exn) :
  strip text ≠ [] →
  split_questions (strip text) = pre ++ q :: post →
  Forall (fun q' => ∃ a, answer_query kb q' = Ok a) pre →
  answer_query kb q = Raise e →
  ask kb (Some text) = Raise e.
Proof.
  intros Hne Hsplit Hpre Hq. unfold ask. simpl get.
  destruct (strip text); [done|]. simpl negb. cbn iota.
  by rewrite Hsplit, (mapM_raises _ _ _ _ _ Hpre Hq).
Qed.

Lemma ask_raises_witness :
  ask kb_unnamed_department (Some (lit "Who is the principal? CSE HOD"))
  = Raise KeyError.
Proof.
  apply (ask_raises kb_unnamed_department "Who is the principal? CSE HOD"
           [lit "Who is the principal"] [] "CSE HOD" KeyError).
  - vm_compute. discriminate.
  - vm_compute. reflexivity.
  - constructor; [|constructor].
    exists (lit "Principal: Not available"). vm_compute. reflexivity.
  - vm_compute. reflexivity.
Defined.

(** ** Departments without keys, and the fees answer *)

(** X19: a department record without any key is "in" every query and
    reads as false: when it is the first of the list, no department is
    ever resolved, whatever the query and the records after it, and the
    HOD block can only ask for a department. *)
Theorem empty_department_shadows (kb : knowledge_base) (d0 : department)
    (rest : list department) (q : str) :
  departments kb = d0 :: rest → dept_true d0 = false →
  find_department kb q = Some d0
  ∧ resolve_department kb q = None
  ∧ hod_answer kb q
    = Ok (lit "Please specify a valid department for HOD information.").
Proof.
  intros Hd Ht.
  assert (Hn : dept_name d0 = None).
  { unfold dept_true in Ht. by destruct (dept_name d0). }
  assert (E : find_department kb q = Some d0).
  { unfold find_department. rewrite Hd. cbn [first_dept_in_query].
    unfold dept_in_query. rewrite Hn. simpl. by rewrite str_in_empty. }
  assert (E' : resolve_department kb q = None).
  { unfold resolve_department. by rewrite E, Ht. }
  split; [done|]. split; [done|]. unfold hod_answer. by rewrite E'.
Qed.

Lemma empty_department_shadows_witness :
  find_department (with_departments [dept_empty; dept_cse]) "cse hod"
  = Some dept_empty
  ∧ resolve_department (with_departments [dept_empty; dept_cse]) "cse hod"
    = None
  ∧ hod_answer (with_departments [dept_empty; dept_cse]) "cse hod"
    = Ok (lit "Please specify a valid department for HOD information.").
Proof.
  apply (empty_department_shadows (with_departments [dept_empty; dept_cse])
           dept_empty [dept_cse]); reflexivity.
Defined.

Lemma join_app_suffix (sep : str) (l1 l2 : list str) :
  l2 ≠ [] → ∃ prefix, join sep (l1 ++ l2) = prefix ++ join sep l2.
Proof.
  intros Hne. induction l1 as [|x l1 [prefix IH]]; [by exists []|].
  destruct (l1 ++ l2) as [|y l] eqn:E.
  { by apply app_eq_nil in E as [_ ?]. }
  exists (x ++ sep ++ prefix). cbn [app join]. rewrite E.
  rewrite IH. by rewrite <- !app_assoc.
Qed.

Lemma Ok_inj {A} (x y : A) : Ok x = Ok y → x = y.
Proof. by intros [= ->]. Qed.

Lemma fees_general_join (kb : knowledge_base) (l : list str) :
  ∃ prefix,
    join " | "
      (l ++ ["Tuition Last Date: " ++ get (tuition_fee_last_date (fees kb)) "N/A";
             "Exam Fee Last Date: " ++ get (exam_fee_last_date (fees kb)) "N/A";
             "Payment via: " ++ get (payment_portal (fees kb)) "N/A"])
    = prefix ++ fees_general kb.
Proof.
  destruct (join_app_suffix " | " l
              ["Tuition Last Date: " ++ get (tuition_fee_last_date (fees kb)) "N/A";
               "Exam Fee Last Date: " ++ get (exam_fee_last_date (fees kb)) "N/A";
               "Payment via: " ++ get (payment_portal (fees kb)) "N/A"]
              ltac:(done)) as [prefix ->].
  exists prefix. f_equal.
Qed.

(** X20: whenever the fees block answers, its answer ends with the two
    last dates and the payment portal (or "N/A" for the missing ones);
    the amounts of a resolved department, if any, come before them. *)
Theorem fees_answer_ends_with_general (kb : knowledge_base) (q answer : str) :
  fees_answer kb q = Ok answer →
  ∃ prefix, answer = prefix ++ fees_general kb.
Proof.
  unfold fees_answer.
  destruct (resolve_department kb q) as [d|].
  - destruct (if_true _) as [t|]; destruct (if_true _) as [e|];
      destruct (dept_name d) as [n|];
      cbn [subscript mbind result_bind bind];
      try discriminate; intros <-%Ok_inj;
      rewrite app_assoc; apply fees_general_join.
  - intros <-%Ok_inj. by exists [].
Qed.

Lemma fees_answer_ends_with_general_witness :
  ∃ prefix,
    lit "Tuition Last Date: N/A | Exam Fee Last Date: N/A | Payment via: N/A"
    = prefix ++ fees_general sample_kb.
Proof.
  apply (fees_answer_ends_with_general sample_kb "cse exam fee").
  vm_compute. reflexivity.
Defined.
